(** * filebunny: the spot/burrow model, verified against its specification

    A shallow embedding of [storage.py], [manager.py], the decorators of
    [utils.py] and the dispatch part of [cli.py] with the listing of [peek].
    Python objects become records, methods become functions that pass the
    manager and the world explicitly, exceptions become the [Raise] branch
    of [outcome]. *)

From Stdlib Require Import ZArith Ascii.
From stdpp Require Import base option list strings gmap fin_maps pretty sorting.

(** ** Pure paths ([pathlib.PurePosixPath]) *)

Module PurePath.

(** The root of a parsed path: none, [/], or the POSIX double slash. *)
Inductive anchor := Rel | Abs | Abs2.

Global Instance anchor_eq_dec : EqDecision anchor.
Proof. solve_decision. Defined.

(** [parts] never holds an empty name or a single dot; [..] is kept. *)
Record ppath := MkPath { root : anchor; parts : list string }.

Global Instance ppath_eq_dec : EqDecision ppath.
Proof. solve_decision. Defined.

Definition slash : ascii := "/"%char.

(** [s.split("/")] *)
Fixpoint split (s : string) : list string :=
  match s with
  | EmptyString => [""]
  | String c s' =>
      if decide (c = slash) then "" :: split s'
      else match split s' with
           | x :: xs => String c x :: xs
           | [] => [String c ""]
           end
  end.

(** ["/".join(l)] *)
Fixpoint join (l : list string) : string :=
  match l with
  | [] => ""
  | [x] => x
  | x :: xs => x +:+ "/" +:+ join xs
  end.

Fixpoint leading_slashes (s : string) : nat :=
  match s with
  | String c s' => if decide (c = slash) then S (leading_slashes s') else 0
  | EmptyString => 0
  end.

(** [posixpath.splitroot]: exactly two leading slashes are kept apart. *)
Definition anchor_of (s : string) : anchor :=
  match leading_slashes s with
  | 0 => Rel
  | 2 => Abs2
  | _ => Abs
  end.

Definition kept (c : string) : bool :=
  negb (bool_decide (c = "")) && negb (bool_decide (c = ".")).

(** [Path(s)] *)
Definition Path (s : string) : ppath :=
  MkPath (anchor_of s) (List.filter kept (split s)).

(** [str(p)] *)
Definition str (p : ppath) : string :=
  match root p with
  | Rel => match parts p with [] => "." | _ => join (parts p) end
  | Abs => "/" +:+ join (parts p)
  | Abs2 => "//" +:+ join (parts p)
  end.

Definition is_absolute (p : ppath) : bool :=
  match root p with Rel => false | _ => true end.

(** [a / b]: an anchored right operand replaces the left one. *)
Definition joinpath (a b : ppath) : ppath :=
  if is_absolute b then b else MkPath (root a) (parts a ++ parts b).

(** [p.parent] *)
Definition parent (p : ppath) : ppath :=
  MkPath (root p) (removelast (parts p)).

(** [p.name] *)
Definition name (p : ppath) : string := List.last (parts p) "".

(** Index of the last dot of a name, [None] when there is none
    ([str.rfind]). *)
Fixpoint rfind_dot (s : string) : option nat :=
  match s with
  | EmptyString => None
  | String c s' =>
      match rfind_dot s' with
      | Some i => Some (S i)
      | None => if decide (c = "."%char) then Some 0 else None
      end
  end.

(** [p.stem]: the name without its last suffix; a leading or a trailing
    dot starts no suffix. *)
Definition stem (n : string) : string :=
  match rfind_dot n with
  | Some i =>
      if decide (0 < i ∧ i < String.length n - 1) then String.substring 0 i n
      else n
  | None => n
  end.

(** [p.with_suffix(ext)] *)
Definition with_suffix (p : ppath) (ext : string) : ppath :=
  MkPath (root p) (removelast (parts p) ++ [stem (name p) +:+ ext]).

Fixpoint has_slash (s : string) : bool :=
  match s with
  | EmptyString => false
  | String c s' => bool_decide (c = slash) || has_slash s'
  end.

(** A well-formed component: what [Path] leaves in [parts]. *)
Definition clean (c : string) : Prop :=
  c ≠ "" ∧ c ≠ "." ∧ has_slash c = false.

(** The absolute path with the given resolved components. *)
Definition absolute (t : list string) : ppath := MkPath Abs t.

End PurePath.
Import PurePath.


(** ** Exceptions and results *)

Inductive exn_kind :=
| FileNotFoundError | NotADirectoryError | FileExistsError
| TypeError | UnicodeDecodeError | RuntimeError | OSError
| CalledProcessError.

Global Instance exn_kind_eq_dec : EqDecision exn_kind.
Proof. solve_decision. Defined.

(** A raised exception: its class and [str(e)]. *)
Record exn := Exn { kind : exn_kind; message : string }.

Global Instance exn_eq_dec : EqDecision exn.
Proof. solve_decision. Defined.

Inductive outcome (A : Type) : Type :=
| Return (a : A)
| Raise (e : exn).
Arguments Return {A} a.
Arguments Raise {A} e.

(** ** The host: file tree, configuration directory, process state *)

Inductive node :=
| File (data : string)
| Link (target : string)
| Dir.

Global Instance node_eq_dec : EqDecision node.
Proof. solve_decision. Defined.

(** JSON values as [json.loads] returns them. *)
Local Unset Elimination Schemes.
Inductive json :=
| JNull
| JBool (b : bool)
| JNum (z : Z)
| JStr (s : string)
| JArr (items : list json)
| JObj (members : list (string * json)).
Local Set Elimination Schemes.

(** What a file of the configuration directory holds, seen through
    [read_text(encoding="utf-8")] followed by [json.loads]:
    bytes that are not UTF-8, text that is not JSON, the proper prefix of
    the serialisation of a value (a write in progress), or the complete
    serialisation of a value. *)
Inductive content :=
| Undecodable
| Garbled (text : string)
| Torn (v : json)
| Document (v : json).

(** One call of [subprocess.run] by the session controller. *)
Inductive launch :=
| PowerShell (dest : string) (verbose : bool)
| BashRc (shell : string) (dest : string) (verbose : bool)
| PlainShell (shell : string) (dest : string).

(** [files] is keyed by resolved absolute paths (the root is the empty
    list and is always a directory).  [config] is the per-user configuration
    directory [user_config_dir("filebunny")], keyed by file name: it belongs
    to [Storage], and the paths handed to the file operations range over
    [files]. *)
Record world := World {
  files : gmap (list string) node;
  config : gmap string content;
  getcwd : string;
  home : string;
  environ : gmap string string;
  system : string;
  user_config_dir : string;
  stdout : list string;
  stderr : list string;
  launched : list launch
}.

Definition set_files (f : gmap (list string) node) (w : world) : world :=
  World f (config w) (getcwd w) (home w) (environ w) (system w)
        (user_config_dir w) (stdout w) (stderr w) (launched w).

Definition set_config (c : gmap string content) (w : world) : world :=
  World (files w) c (getcwd w) (home w) (environ w) (system w)
        (user_config_dir w) (stdout w) (stderr w) (launched w).

(** [print(line)] *)
Definition print (line : string) (w : world) : world :=
  World (files w) (config w) (getcwd w) (home w) (environ w) (system w)
        (user_config_dir w) (stdout w ++ [line]) (stderr w) (launched w).

(** [sys.stderr.write(line)] *)
Definition eprint (line : string) (w : world) : world :=
  World (files w) (config w) (getcwd w) (home w) (environ w) (system w)
        (user_config_dir w) (stdout w) (stderr w ++ [line]) (launched w).

Definition record_launch (l : launch) (w : world) : world :=
  World (files w) (config w) (getcwd w) (home w) (environ w) (system w)
        (user_config_dir w) (stdout w) (stderr w) (launched w ++ [l]).

(** Two worlds that agree on everything but the configuration directory. *)
Definition same_but_config (w1 w2 : world) : Prop :=
  files w1 = files w2 ∧ getcwd w1 = getcwd w2 ∧ home w1 = home w2
  ∧ environ w1 = environ w2 ∧ system w1 = system w2
  ∧ user_config_dir w1 = user_config_dir w2
  ∧ stdout w1 = stdout w2 ∧ stderr w1 = stderr w2 ∧ launched w1 = launched w2.

(** ** The file tree as the operating system shows it *)

Module Fs.

Definition node_at (fs : gmap (list string) node) (p : list string) : option node :=
  match p with
  | [] => Some Dir
  | _ => fs !! p
  end.

Definition is_dir_node (n : node) : bool :=
  match n with Dir => true | _ => false end.

(** How many symbolic links one resolution may expand before it is
    reported as a loop. *)
Definition MAXSYMLINKS : nat := 40.

(** Errors of the operating system, worded as [str(e)] words them:
    [[Errno n] text: 'filename']. *)
Definition os_error (k : exn_kind) (errno text filename : string) : exn :=
  Exn k ("[Errno " +:+ errno +:+ "] " +:+ text +:+ ": '" +:+ filename +:+ "'").

Definition enoent (p : list string) : exn :=
  os_error FileNotFoundError "2" "No such file or directory" (str (absolute p)).
Definition enotdir (p : list string) : exn :=
  os_error NotADirectoryError "20" "Not a directory" (str (absolute p)).
Definition eexist (p : list string) : exn :=
  os_error FileExistsError "17" "File exists" (str (absolute p)).
(** A loop of links: [ELOOP] from the kernel, [RuntimeError] from
    [resolve()]. *)
Definition eloop (strict : bool) (p : list string) : exn :=
  if strict
  then os_error OSError "40" "Too many levels of symbolic links" (str (absolute p))
  else Exn RuntimeError ("Symlink loop from '" +:+ str (absolute p) +:+ "'").

(** [os.path.realpath(_, strict)]: walk [rest] from the resolved prefix
    [cur].  Without [strict] a missing component is appended as it is and
    [..] pops lexically; with [strict] the walk fails where the kernel's
    path lookup fails. *)
Fixpoint realpath (strict : bool) (budget : nat) (fs : gmap (list string) node)
    {struct budget} : list string → list string → outcome (list string) :=
  fix walk (cur rest : list string) {struct rest} : outcome (list string) :=
    match rest with
    | [] => Return cur
    | c :: rest' =>
        if decide (c = "..") then walk (removelast cur) rest'
        else
          match fs !! (cur ++ [c]) with
          | Some (Link tgt) =>
              match budget with
              | 0 => Raise (eloop strict (cur ++ [c]))
              | S b =>
                  realpath strict b fs
                    (if is_absolute (Path tgt) then [] else cur)
                    (parts (Path tgt) ++ rest')
              end
          | Some n =>
              if strict && negb (bool_decide (rest' = [])) && negb (is_dir_node n)
              then Raise (enotdir (cur ++ [c]))
              else walk (cur ++ [c]) rest'
          | None =>
              if strict then Raise (enoent (cur ++ [c]))
              else walk (cur ++ [c]) rest'
          end
    end.

(** A walk along [xs] from [cur] that meets no symbolic link and no [..]. *)
Definition plain (fs : gmap (list string) node) (cur xs : list string) : Prop :=
  ∀ k c, xs !! k = Some c →
         c ≠ ".." ∧ ∀ tgt, fs !! (cur ++ take (S k) xs) ≠ Some (Link tgt).

(** A tree as a file system holds it: the root is no entry, and every
    entry lies in a directory. *)
Definition tree_ok (fs : gmap (list string) node) : Prop :=
  fs !! [] = None ∧ ∀ p n, fs !! p = Some n → node_at fs (removelast p) = Some Dir.

(** A resolved path: no [..] in it and no symbolic link on it. *)
Definition settled (fs : gmap (list string) node) (t : list string) : Prop :=
  (".." ∉ t) ∧ ∀ q tgt, q `prefix_of` t → fs !! q ≠ Some (Link tgt).

(** The components to walk from the root: a relative path is taken from
    [os.getcwd()]. *)
Definition from_root (cwd : string) (p : ppath) : list string :=
  if is_absolute p then parts p else parts (Path cwd) ++ parts p.

(** [p.resolve()] *)
Definition resolve (fs : gmap (list string) node) (cwd : string) (p : ppath)
    : outcome (list string) :=
  realpath false MAXSYMLINKS fs [] (from_root cwd p).

(** [os.stat(p)], following links. *)
Definition stat (fs : gmap (list string) node) (cwd : string) (p : ppath)
    : option node :=
  match realpath true MAXSYMLINKS fs [] (from_root cwd p) with
  | Return t => node_at fs t
  | Raise _ => None
  end.

(** [p.is_dir()] *)
Definition is_dir (fs : gmap (list string) node) (cwd : string) (p : ppath) : bool :=
  match stat fs cwd p with Some Dir => true | _ => false end.

(** [mkdir(parents=True, exist_ok=True)] on a resolved path: create the
    missing directories from [cur] downwards.  A file in the way makes
    [os.mkdir] fail on the whole path, before anything is created. *)
Fixpoint mkdir_parents (fs : gmap (list string) node) (cur rest : list string)
    : outcome (gmap (list string) node) :=
  match rest with
  | [] => Return fs
  | c :: rest' =>
      match fs !! (cur ++ [c]) with
      | None => mkdir_parents (<[cur ++ [c] := Dir]> fs) (cur ++ [c]) rest'
      | Some Dir => mkdir_parents fs (cur ++ [c]) rest'
      | Some _ =>
          Raise (match rest' with
                 | [] => eexist (cur ++ [c])
                 | _ => enotdir (cur ++ c :: rest')
                 end)
      end
  end.

(** [touch(exist_ok=True)] on a resolved path whose parent exists. *)
Definition touch (fs : gmap (list string) node) (t : list string)
    : gmap (list string) node :=
  match node_at fs t with
  | Some _ => fs
  | None => <[t := File ""]> fs
  end.

(** [shutil.rmtree(t)] on a resolved directory. *)
Definition rmtree (fs : gmap (list string) node) (t : list string)
    : gmap (list string) node :=
  filter (λ kv, ¬ t `prefix_of` kv.1) fs.

(** [unlink(missing_ok=False)] on a resolved path. *)
Definition unlink (fs : gmap (list string) node) (t : list string)
    : outcome (gmap (list string) node) :=
  match fs !! t with
  | Some _ => Return (delete t fs)
  | None => Raise (enoent t)
  end.

(** [iterdir()] on a resolved directory: the names of its entries. *)
Definition children (fs : gmap (list string) node) (t : list string) : list string :=
  omap (λ kv, if decide (kv.1 ≠ [] ∧ removelast kv.1 = t)
              then Some (List.last kv.1 "") else None)
       (map_to_list fs).

End Fs.

(** ** storage.py *)

Record State := MkState { last_spot : json }.

(** [type(v).__name__] *)
Definition type_name (v : json) : string :=
  match v with
  | JNull => "NoneType"
  | JBool _ => "bool"
  | JNum _ => "int"
  | JStr _ => "str"
  | JArr _ => "list"
  | JObj _ => "dict"
  end.

(** [asdict(state)] *)
Definition asdict (s : State) : json := JObj [("last_spot", last_spot s)].

(** [State] called with the keyword arguments [data], the value
    [json.loads] returned: [data] must be a mapping with the one key
    [last_spot]; the dataclass checks no type, so any JSON value is taken.
    A repeated key keeps its last value, as in the dictionary
    [json.loads] builds. *)
Definition State_kwargs (data : json) : outcome State :=
  match data with
  | JObj members =>
      match List.find (λ kv, negb (bool_decide (kv.1 = "last_spot"))) members with
      | Some kv =>
          Raise (Exn TypeError
                   ("State.__init__() got an unexpected keyword argument '"
                      +:+ kv.1 +:+ "'"))
      | None =>
          match List.rev members with
          | kv :: _ => Return (MkState kv.2)
          | [] =>
              Raise (Exn TypeError
                       "State.__init__() missing 1 required positional argument: 'last_spot'")
          end
      end
  | _ =>
      Raise (Exn TypeError
               ("filebunny.storage.State() argument after ** must be a mapping, not "
                  +:+ type_name data))
  end.

Module Storage.

Record t := Make { path : ppath }.

(** [__init__]: the record lives at [user_config_dir / "spot.json"]; the
    directory itself is [config], which always exists here. *)
Definition init (w : world) : t :=
  Make (joinpath (Path (user_config_dir w)) (Path "spot.json")).

(** The default of [read]: [State(last_spot=str(Path.cwd()))]. *)
Definition fallback (w : world) : State :=
  MkState (JStr (str (Path (getcwd w)))).

Definition read (self : t) (w : world) : outcome State :=
  match config w !! name (path self) with
  | None => Return (fallback w)
  | Some Undecodable =>
      Raise (Exn UnicodeDecodeError "'utf-8' codec can't decode byte")
  | Some (Garbled _) => Return (fallback w)
  | Some (Torn _) => Return (fallback w)
  | Some (Document data) => State_kwargs data
  end.

(** [tmp.write_text(text)]: the file is created or truncated, filled, and
    complete when it is closed. *)
Definition write_text (file : string) (v : json)
    : list (gmap string content → gmap string content) :=
  [ insert file (Garbled ""); insert file (Torn v); insert file (Document v) ].

(** [src.replace(dst)]: one rename. *)
Definition replace (src dst : string) (c : gmap string content)
    : gmap string content :=
  match c !! src with
  | Some x => delete src (<[dst := x]> c)
  | None => c
  end.

(** The file-system steps of [write], in order. *)
Definition write_script (self : t) (state : State)
    : list (gmap string content → gmap string content) :=
  let tmp := with_suffix (path self) ".tmp" in
  write_text (name tmp) (asdict state) ++ [replace (name tmp) (name (path self))].

Definition run (script : list (gmap string content → gmap string content))
    (c : gmap string content) : gmap string content :=
  fold_left (λ c step, step c) script c.

Definition write (self : t) (state : State) (w : world) : world :=
  set_config (run (write_script self state) (config w)) w.

End Storage.

(** ** External collaborators

    The argument parser, the copy, move and rename primitives of [shutil]
    and [os], the listing renderer of [peek] and the interactive shell are
    consumed as they are: nothing is assumed about them beyond their
    signature. *)

Inductive command :=
| CSpot
| CHop (path : option string)
| CPeek (all : bool)
| CCopy (src dst : string)
| CMove (src dst : string)
| CBury (path : string)
| CRename (src dst : string)
| CDig (path : string)
| CCarrot (path : string).

(** What [parser.parse_args()] does: it returns a namespace, or it prints
    and leaves through [SystemExit] (help of a subcommand, version, usage
    error). *)
Inductive parsed :=
| Namespace (cmd : option command) (verbose : bool)
| ParserExit (status : nat) (out err : list string).

Class Host := {
  parse_args : list string → parsed;
  banner : string;
  shutil_copytree :
    gmap (list string) node → string → ppath → ppath → outcome (gmap (list string) node);
  shutil_copy2 :
    gmap (list string) node → string → ppath → ppath → outcome (gmap (list string) node);
  shutil_move :
    gmap (list string) node → string → ppath → ppath → outcome (gmap (list string) node);
  os_rename :
    gmap (list string) node → string → ppath → ppath → outcome (gmap (list string) node);
  peek_report :
    gmap (list string) node → string → ppath → bool → outcome (list string * list string);
  subprocess_run : launch → world → outcome unit * world
}.

(** ** manager.py

    The decorators [log_call], [log_timing] and [log_errors] of [utils.py]
    pass arguments, results and exceptions through unchanged; the records
    they hand to [logging] are not part of [stderr] below. *)

Module FileManager.

Record t := Make { storage : Storage.t; state : State; cwd : ppath }.

Definition set_cwd (p : ppath) (self : t) : t :=
  Make (storage self) (state self) p.

(** [Path(x)] for a value that need not be a string. *)
Definition Path_of (v : json) : outcome ppath :=
  match v with
  | JStr s => Return (Path s)
  | _ =>
      Raise (Exn TypeError
               ("expected str, bytes or os.PathLike object, not " +:+ type_name v))
  end.

Definition init (storage : Storage.t) (w : world) : outcome t :=
  match Storage.read storage w with
  | Raise e => Raise e
  | Return st =>
      match Path_of (last_spot st) with
      | Raise e => Raise e
      | Return p => Return (Make storage st p)
      end
  end.

Definition _persist (self : t) (w : world) : world :=
  Storage.write (storage self) (MkState (JStr (str (cwd self)))) w.

(** The path [hop] resolves: [self.cwd / new], or [new] when anchored. *)
Definition hop_path (path : option string) (self : t) (w : world) : ppath :=
  let new := match path with
             | Some (String _ _ as s) => Path s
             | _ => Path (home w)
             end in
  if negb (is_absolute new) then joinpath (cwd self) new else new.

(** [target] is resolved, so [target.exists()] and [target.is_dir()] are
    the look-up of its entry. *)
Definition hop (path : option string) (self : t) (w : world)
    : outcome string * t * world :=
  match Fs.resolve (files w) (getcwd w) (hop_path path self w) with
  | Raise e => (Raise e, self, w)
  | Return target =>
      match Fs.node_at (files w) target with
      | None =>
          (Raise (Exn FileNotFoundError
                    ("path does not exist: " +:+ str (absolute target))),
           self, w)
      | Some Dir =>
          let self' := set_cwd (absolute target) self in
          (Return (str (cwd self')), self', _persist self' w)
      | Some _ =>
          (Raise (Exn NotADirectoryError
                    ("not a directory: " +:+ str (absolute target))),
           self, w)
      end
  end.

Definition spot (self : t) (w : world) : outcome string * t * world :=
  (Return (str (cwd self)), self, w).

Section operations.
Context `{Host}.

Definition copy (src dst : string) (self : t) (w : world)
    : outcome unit * t * world :=
  let s := joinpath (cwd self) (Path src) in
  let d := joinpath (cwd self) (Path dst) in
  match (if Fs.is_dir (files w) (getcwd w) s
         then shutil_copytree (files w) (getcwd w) s d
         else shutil_copy2 (files w) (getcwd w) s d) with
  | Return fs => (Return (), self, set_files fs w)
  | Raise e => (Raise e, self, w)
  end.

Definition move (src dst : string) (self : t) (w : world)
    : outcome unit * t * world :=
  match shutil_move (files w) (getcwd w)
          (joinpath (cwd self) (Path src)) (joinpath (cwd self) (Path dst)) with
  | Return fs => (Return (), self, set_files fs w)
  | Raise e => (Raise e, self, w)
  end.

Definition rename (src dst : string) (self : t) (w : world)
    : outcome unit * t * world :=
  match os_rename (files w) (getcwd w)
          (joinpath (cwd self) (Path src)) (joinpath (cwd self) (Path dst)) with
  | Return fs => (Return (), self, set_files fs w)
  | Raise e => (Raise e, self, w)
  end.

End operations.

Definition delete (path : string) (self : t) (w : world)
    : outcome unit * t * world :=
  match Fs.resolve (files w) (getcwd w) (joinpath (cwd self) (Path path)) with
  | Raise e => (Raise e, self, w)
  | Return target =>
      match Fs.node_at (files w) target with
      | Some Dir => (Return (), self, set_files (Fs.rmtree (files w) target) w)
      | _ =>
          match Fs.unlink (files w) target with
          | Return fs => (Return (), self, set_files fs w)
          | Raise e => (Raise e, self, w)
          end
      end
  end.

Definition dig (path : string) (self : t) (w : world)
    : outcome string * t * world :=
  match Fs.resolve (files w) (getcwd w) (joinpath (cwd self) (Path path)) with
  | Raise e => (Raise e, self, w)
  | Return target =>
      match Fs.mkdir_parents (files w) [] target with
      | Return fs => (Return (str (absolute target)), self, set_files fs w)
      | Raise e => (Raise e, self, w)
      end
  end.

Definition carrot (path : string) (self : t) (w : world)
    : outcome string * t * world :=
  match Fs.resolve (files w) (getcwd w) (joinpath (cwd self) (Path path)) with
  | Raise e => (Raise e, self, w)
  | Return target =>
      match Fs.mkdir_parents (files w) [] (removelast target) with
      | Return fs =>
          (Return (str (absolute target)), self, set_files (Fs.touch fs target) w)
      | Raise e => (Raise e, self, w)
      end
  end.

(** [list]: the names of the entries of [self.cwd].  When a component of
    [self.cwd] is missing, the error here names that component, where
    [os.listdir] names [self.cwd] as it was given: the class of the
    exception is the same, and nothing below depends on its text. *)
Definition list (self : t) (w : world)
    : outcome (Datatypes.list string) * t * world :=
  match Fs.realpath true Fs.MAXSYMLINKS (files w) []
          (Fs.from_root (getcwd w) (cwd self)) with
  | Raise e => (Raise e, self, w)
  | Return target =>
      match Fs.node_at (files w) target with
      | Some Dir => (Return (Fs.children (files w) target), self, w)
      | Some _ =>
          (Raise (Fs.os_error NotADirectoryError "20" "Not a directory"
                    (str (cwd self))), self, w)
      | None =>
          (Raise (Fs.os_error FileNotFoundError "2" "No such file or directory"
                    (str (cwd self))), self, w)
      end
  end.

(** The public operations, as calls. *)
Inductive call :=
| Spot
| Hop (path : option string)
| List
| Copy (src dst : string)
| Move (src dst : string)
| Rename (src dst : string)
| Delete (path : string)
| Dig (path : string)
| Carrot (path : string).

Definition is_hop (c : call) : bool :=
  match c with Hop _ => true | _ => false end.

Definition forget {A} (r : outcome A * t * world) : option exn * t * world :=
  match r with
  | (Return _, self, w) => (None, self, w)
  | (Raise e, self, w) => (Some e, self, w)
  end.

(** Run one call: the exception it raised (if any), the manager and the
    world afterwards. *)
Definition perform `{Host} (c : call) (self : t) (w : world)
    : option exn * t * world :=
  match c with
  | Spot => forget (spot self w)
  | Hop path => forget (hop path self w)
  | List => forget (list self w)
  | Copy src dst => forget (copy src dst self w)
  | Move src dst => forget (move src dst self w)
  | Rename src dst => forget (rename src dst self w)
  | Delete path => forget (delete path self w)
  | Dig path => forget (dig path self w)
  | Carrot path => forget (carrot path self w)
  end.

End FileManager.

(** ** cli.py *)

(** How [main] leaves: by returning, through [SystemExit(code)], or with an
    exception nobody caught (the interpreter then prints the traceback). *)
Inductive termination :=
| Returned
| SystemExit (code : nat)
| Uncaught (e : exn).

(** The exit status of the process. *)
Definition exit_status (t : termination) : nat :=
  match t with
  | Returned => 0
  | SystemExit code => code
  | Uncaught _ => 1
  end.

(** Whether the interpreter dumps a traceback on the error stream. *)
Definition traceback (t : termination) : bool :=
  match t with Uncaught _ => true | _ => false end.

Module Cli.

Definition subcommands : list string :=
  ["spot"; "hop"; "peek"; "copy"; "move"; "bury"; "rename"; "dig"; "carrot"].

Definition top_level_help (argv : list string) : bool :=
  bool_decide ("-h" ∈ argv) || bool_decide ("--help" ∈ argv).

Definition verbose_requested (argv : list string) : bool :=
  bool_decide ("-V" ∈ argv) || bool_decide ("--verbose" ∈ argv).

Definition mentions_sub (argv : list string) : bool :=
  existsb (λ token, bool_decide (token ∈ subcommands)) argv.

Definition notice : string :=
  "Already inside a filebunny burrow. Use 'leave' to exit.".

(** [s.endswith(suffix)] *)
Fixpoint endswith (s suffix : string) : bool :=
  bool_decide (s = suffix) ||
  match s with
  | String _ s' => endswith s' suffix
  | EmptyString => false
  end.

(** The line written by the handlers, [f"{cmd} error: {e}"], without its
    newline: [stdout] and [stderr] are lists of lines. *)
Definition diagnostic (cmd : string) (e : exn) : string :=
  cmd +:+ " error: " +:+ message e.

Section entry.
Context `{Host}.

(** The shell the session starts, from the platform and [$SHELL]. *)
Definition session_launch (dest : string) (verbose : bool) (w : world) : launch :=
  if bool_decide (system w = "Windows") then PowerShell dest verbose
  else
    let shell := match environ w !! "SHELL" with
                 | Some (String _ _ as s) => s
                 | _ => "/bin/sh"
                 end in
    if endswith shell "bash" then BashRc shell dest verbose
    else PlainShell shell dest.

(** No subcommand and no marker: enter the burrow.  The start-up script
    handed to the shell is determined by [dest] and [verbose] and is left
    out of [launch]. *)
Definition enter_burrow (verbose : bool) (w : world) : termination * world :=
  match FileManager.init (Storage.init w) w with
  | Raise e => (Uncaught e, w)
  | Return fm =>
      match FileManager.spot fm w with
      | (Raise e, _, w1) => (SystemExit 1, eprint (diagnostic "burrow" e) w1)
      | (Return dest, _, w1) =>
          let l := session_launch dest verbose w1 in
          match subprocess_run l (record_launch l w1) with
          | (Raise e, w2) => (SystemExit 1, eprint (diagnostic "burrow" e) w2)
          | (Return _, w2) => (Returned, w2)
          end
      end
  end.

(** A handler of the form
    [try: print(op) except Exception as e: write; raise SystemExit(1)]. *)
Definition guarded (cmd : string) (r : outcome string * FileManager.t * world)
    : termination * world :=
  match r with
  | (Return out, _, w) => (Returned, print out w)
  | (Raise e, _, w) => (SystemExit 1, eprint (diagnostic cmd e) w)
  end.

(** A branch without a handler: [op; print(done)]. *)
Definition unguarded (done : string) (r : outcome unit * FileManager.t * world)
    : termination * world :=
  match r with
  | (Return _, _, w) => (Returned, print done w)
  | (Raise e, _, w) => (Uncaught e, w)
  end.

(** The [match args.cmd] of a direct command. *)
Definition dispatch (c : command) (fm : FileManager.t) (w : world)
    : termination * world :=
  match c with
  | CSpot => guarded "spot" (FileManager.spot fm w)
  | CHop path => guarded "hop" (FileManager.hop path fm w)
  | CPeek all =>
      match FileManager.spot fm w with
      | (Raise e, _, w1) => (Uncaught e, w1)
      | (Return root, _, w1) =>
          match peek_report (files w1) (getcwd w1) (Path root) all with
          | Raise e => (Uncaught e, w1)
          | Return (out, err) =>
              (Returned,
               fold_left (λ w line, eprint line w) err
                 (fold_left (λ w line, print line w) out w1))
          end
      end
  | CCopy src dst =>
      unguarded ("Copied " +:+ src +:+ " to " +:+ dst) (FileManager.copy src dst fm w)
  | CMove src dst =>
      unguarded ("Moved " +:+ src +:+ " to " +:+ dst) (FileManager.move src dst fm w)
  | CBury path =>
      unguarded ("Buried " +:+ path) (FileManager.delete path fm w)
  | CRename src dst =>
      unguarded ("Renamed " +:+ src +:+ " to " +:+ dst)
        (FileManager.rename src dst fm w)
  | CDig path => guarded "dig" (FileManager.dig path fm w)
  | CCarrot path => guarded "carrot" (FileManager.carrot path fm w)
  end.

(** A direct command: the manager is built from the storage, then its
    directory is replaced by [Path.cwd()]. *)
Definition direct (c : command) (w : world) : termination * world :=
  match FileManager.init (Storage.init w) w with
  | Raise e => (Uncaught e, w)
  | Return fm => dispatch c (FileManager.set_cwd (Path (getcwd w)) fm) w
  end.

Definition main (argv : list string) (w : world) : termination * world :=
  if top_level_help argv && negb (mentions_sub argv) then
    (Returned, print banner w)
  else
    match parse_args argv with
    | ParserExit status out err =>
        (SystemExit status,
         fold_left (λ w line, eprint line w) err
           (fold_left (λ w line, print line w) out w))
    | Namespace cmd verbose_flag =>
        let verbose := verbose_flag || verbose_requested argv in
        match cmd with
        | None =>
            if bool_decide (environ w !! "FILEBUNNY_BURROW" = Some "1") then
              (Returned, print notice w)
            else enter_burrow verbose w
        | Some c => direct c w
        end
    end.

End entry.

End Cli.

(** ** A small host and world for the examples *)

Module Demo.

Definition tree : gmap (list string) node :=
  list_to_map
    [ (["home"], Dir);
      (["home"; "u"], Dir);
      (["home"; "u"; "docs"], Dir);
      (["home"; "u"; "docs"; "todo.txt"], File "water the carrots");
      (["home"; "u"; "notes.txt"], File "hello");
      (["home"; "u"; "lnk"], Link "docs");
      (["home"; "u"; "dangling"], Link "/nowhere") ].

Definition w0 : world :=
  World tree ∅ "/home/u" "/home/u" ∅ "Linux" "/home/u/.config/filebunny" [] [] [].

(** The same world seen from inside a burrow. *)
Definition burrowed : world :=
  World tree ∅ "/home/u" "/home/u" {[ "FILEBUNNY_BURROW" := "1" ]} "Linux"
        "/home/u/.config/filebunny" [] [] [].

Definition with_record (c : content) (w : world) : world :=
  set_config (<["spot.json" := c]> (config w)) w.

Definition fm0 : FileManager.t :=
  FileManager.Make (Storage.init w0) (MkState (JStr "/home/u")) (Path "/home/u").

(** A parser for the exact spellings used in the examples. *)
Definition parse (argv : list string) : parsed :=
  match argv with
  | [] => Namespace None false
  | ["-V"] => Namespace None true
  | ["spot"] => Namespace (Some CSpot) false
  | ["hop"] => Namespace (Some (CHop None)) false
  | ["hop"; p] => Namespace (Some (CHop (Some p))) false
  | ["peek"] => Namespace (Some (CPeek false)) false
  | ["copy"; s; d] => Namespace (Some (CCopy s d)) false
  | ["move"; s; d] => Namespace (Some (CMove s d)) false
  | ["rename"; s; d] => Namespace (Some (CRename s d)) false
  | ["bury"; p] => Namespace (Some (CBury p)) false
  | ["dig"; p] => Namespace (Some (CDig p)) false
  | ["carrot"; p] => Namespace (Some (CCarrot p)) false
  | _ => ParserExit 2 [] ["usage: filebunny"]
  end.

(** Copying knows regular files only; moving and renaming know nothing. *)
Definition copy_file (fs : gmap (list string) node) (cwd : string) (s d : ppath)
    : outcome (gmap (list string) node) :=
  match Fs.stat fs cwd s, Fs.resolve fs cwd d with
  | Some (File data), Return t => Return (<[t := File data]> fs)
  | _, _ => Raise (Exn FileNotFoundError (str s))
  end.

Definition refuse (fs : gmap (list string) node) (cwd : string) (s d : ppath)
    : outcome (gmap (list string) node) :=
  Raise (Exn OSError (str s)).

Definition host : Host := {|
  parse_args := parse;
  banner := "filebunny";
  shutil_copytree := refuse;
  shutil_copy2 := copy_file;
  shutil_move := refuse;
  os_rename := refuse;
  peek_report := λ fs cwd root all, Return ([str root], []);
  subprocess_run := λ l w, (Return (), w)
|}.

End Demo.

(** ** Auxiliary predicates *)

(** A JSON value [State] accepts as its keyword arguments: an object with
    at least one member and no key but [last_spot]. *)
Definition record_shaped (v : json) : Prop :=
  ∃ members, v = JObj members ∧ members ≠ []
             ∧ Forall (λ kv : string * json, kv.1 = "last_spot") members.

(** A record the construction of a manager stumbles over. *)
Definition record_unusable (c : content) : Prop :=
  match c with
  | Undecodable => True
  | Garbled _ | Torn _ => False
  | Document v =>
      ¬ record_shaped v
      ∨ ∃ members x, v = JObj (members ++ [("last_spot", x)])
                     ∧ Forall (λ kv : string * json, kv.1 = "last_spot") members
                     ∧ ∀ s, x ≠ JStr s
  end.

(** ** utils.py: the logging decorators

    The root logger writes to the error stream the records whose level
    reaches its threshold.  What the handler makes of a record (the time
    stamp, the elapsed time of [TIME], the [repr] of the arguments) is the
    handler's: a record is kept here as its level, its kind and the values
    the source interpolates. *)

Module Logging.

Inductive levelname := DEBUG | INFO | WARNING | ERROR | CRITICAL.

Definition levelno (l : levelname) : nat :=
  match l with
  | DEBUG => 10
  | INFO => 20
  | WARNING => 30
  | ERROR => 40
  | CRITICAL => 50
  end.

(** An argument of a call, [args[1:]]: the callers in this repository pass
    [None] or a string, by position. *)
Inductive value := VNone | VStr (s : string).

Inductive message :=
| Call (fn : string) (args : list value)
| Timing (fn : string)
| Failure (fn : string) (e : exn).

Class Handler := { render : levelname → message → string }.

Section decorators.
Context {handler : Handler} {A : Type}.

(** [logging.info(...)], [logging.error(...)] under the threshold of the
    root logger. *)
Definition log (threshold : nat) (l : levelname) (m : message) (w : world) : world :=
  if decide (threshold ≤ levelno l) then eprint (render l m) w else w.

(** [log_call]: the record is written before the call. *)
Definition log_call (threshold : nat) (fn : string) (args : list value)
    (f : FileManager.t → world → outcome A * FileManager.t * world)
    (self : FileManager.t) (w : world) : outcome A * FileManager.t * world :=
  f self (log threshold INFO (Call fn args) w).

(** [log_timing]: the record is written in the [finally] clause. *)
Definition log_timing (threshold : nat) (fn : string)
    (f : FileManager.t → world → outcome A * FileManager.t * world)
    (self : FileManager.t) (w : world) : outcome A * FileManager.t * world :=
  match f self w with
  | (r, self', w') => (r, self', log threshold INFO (Timing fn) w')
  end.

(** [log_errors]: the exception is recorded and raised again. *)
Definition log_errors (threshold : nat) (fn : string)
    (f : FileManager.t → world → outcome A * FileManager.t * world)
    (self : FileManager.t) (w : world) : outcome A * FileManager.t * world :=
  match f self w with
  | (Raise e, self', w') => (Raise e, self', log threshold ERROR (Failure fn e) w')
  | r => r
  end.

(** [@log_errors @log_call @log_timing def fn]. *)
Definition decorated (threshold : nat) (fn : string) (args : list value)
    (f : FileManager.t → world → outcome A * FileManager.t * world)
    : FileManager.t → world → outcome A * FileManager.t * world :=
  log_errors threshold fn (log_call threshold fn args (log_timing threshold fn f)).

(** The records of one call, in the order they are written. *)
Definition records (fn : string) (args : list value) (r : outcome A)
    : list (levelname * message) :=
  [(INFO, Call fn args); (INFO, Timing fn)]
  ++ match r with
     | Raise e => [(ERROR, Failure fn e)]
     | Return _ => []
     end.

End decorators.

(** The lines a list of records leaves under a threshold. *)
Definition visible {handler : Handler} (threshold : nat)
    (rs : list (levelname * message)) : list string :=
  List.map (λ r, render r.1 r.2)
    (List.filter (λ r, bool_decide (threshold ≤ levelno r.1)) rs).

(** Writing a list of records under a threshold. *)
Definition emit {handler : Handler} (threshold : nat) (rs : list (levelname * message))
    (w : world) : world :=
  fold_left (λ w r, log threshold r.1 r.2 w) rs w.

(** An operation that neither reads nor writes the error stream: a line
    written before it is there after it, and that is all the difference. *)
Definition stream_blind {A}
    (f : FileManager.t → world → outcome A * FileManager.t * world) : Prop :=
  ∀ self w line,
    f self (eprint line w)
    = match f self w with (r, self', w') => (r, self', eprint line w') end.

End Logging.

(** ** manager.py and cli.py with their log records *)

Module Logged.
Import Logging.

Section methods.
Context {host : Host} {handler : Handler}.

Definition of_option (path : option string) : value :=
  match path with Some s => VStr s | None => VNone end.

Definition hop (threshold : nat) (path : option string) :=
  decorated threshold "hop" [of_option path] (FileManager.hop path).
Definition spot (threshold : nat) :=
  decorated threshold "spot" [] FileManager.spot.
Definition list (threshold : nat) :=
  decorated threshold "list" [] FileManager.list.
Definition copy (threshold : nat) (src dst : string) :=
  decorated threshold "copy" [VStr src; VStr dst] (FileManager.copy src dst).
Definition move (threshold : nat) (src dst : string) :=
  decorated threshold "move" [VStr src; VStr dst] (FileManager.move src dst).
Definition delete (threshold : nat) (path : string) :=
  decorated threshold "delete" [VStr path] (FileManager.delete path).
Definition rename (threshold : nat) (src dst : string) :=
  decorated threshold "rename" [VStr src; VStr dst] (FileManager.rename src dst).
Definition dig (threshold : nat) (path : string) :=
  decorated threshold "dig" [VStr path] (FileManager.dig path).
Definition carrot (threshold : nat) (path : string) :=
  decorated threshold "carrot" [VStr path] (FileManager.carrot path).

(** The branch of [peek] after its call of [spot]. *)
Definition peek_branch (all : bool) (r : outcome string * FileManager.t * world)
    : termination * world :=
  match r with
  | (Raise e, _, w1) => (Uncaught e, w1)
  | (Return root, _, w1) =>
      match peek_report (files w1) (getcwd w1) (Path root) all with
      | Raise e => (Uncaught e, w1)
      | Return (out, err) =>
          (Returned,
           fold_left (λ w line, eprint line w) err
             (fold_left (λ w line, print line w) out w1))
      end
  end.

(** The [match args.cmd] of [main], [threshold] being the level of the
    root logger when it is entered.  The branches of [dig] and [carrot]
    set the level to [WARNING] before they call. *)
Definition dispatch (threshold : nat) (c : command) (fm : FileManager.t) (w : world)
    : termination * world :=
  match c with
  | CSpot => Cli.guarded "spot" (spot threshold fm w)
  | CHop path => Cli.guarded "hop" (hop threshold path fm w)
  | CPeek all => peek_branch all (spot threshold fm w)
  | CCopy src dst =>
      Cli.unguarded ("Copied " +:+ src +:+ " to " +:+ dst) (copy threshold src dst fm w)
  | CMove src dst =>
      Cli.unguarded ("Moved " +:+ src +:+ " to " +:+ dst) (move threshold src dst fm w)
  | CBury path =>
      Cli.unguarded ("Buried " +:+ path) (delete threshold path fm w)
  | CRename src dst =>
      Cli.unguarded ("Renamed " +:+ src +:+ " to " +:+ dst)
        (rename threshold src dst fm w)
  | CDig path => Cli.guarded "dig" (dig (levelno WARNING) path fm w)
  | CCarrot path => Cli.guarded "carrot" (carrot (levelno WARNING) path fm w)
  end.

(** A direct command: [-V] raises the verbosity to [INFO] before the
    [match]. *)
Definition direct (threshold : nat) (verbose : bool) (c : command) (w : world)
    : termination * world :=
  match FileManager.init (Storage.init w) w with
  | Raise e => (Uncaught e, w)
  | Return fm =>
      dispatch (if verbose then levelno INFO else threshold) c
        (FileManager.set_cwd (Path (getcwd w)) fm) w
  end.

End methods.

End Logged.

(** A handler that shows the kind of a record and what it is about. *)
Definition demo_handler : Logging.Handler := {|
  Logging.render l m :=
    match m with
    | Logging.Call fn _ => "CALL " +:+ fn
    | Logging.Timing fn => "TIME " +:+ fn
    | Logging.Failure fn e => "ERROR in " +:+ fn +:+ ": " +:+ message e
    end
|}.

(** ** cli.py: the listing of [peek]

    The branch of [peek] in [main], that the entry point above consumes as
    [peek_report].  Two things are the host's: [str.lower], and the local
    time [datetime.fromtimestamp(st.st_mtime)] of an entry, taken as a
    date the calendar can hold. *)

Module Peek.

Record datetime := Datetime {
  year : nat; month : nat; day : nat; hour : nat; minute : nat
}.

Fixpoint spaces (n : nat) : string :=
  match n with
  | 0 => ""
  | S n => String " " (spaces n)
  end.

(** [f"{s:<width}"] and [f"{s:>width}"] *)
Definition ljust (width : nat) (s : string) : string :=
  s +:+ spaces (width - String.length s).
Definition rjust (width : nat) (s : string) : string :=
  spaces (width - String.length s) +:+ s.

(** [f"{mode:<6}  {when:<22}  {length:>10} {name}"] *)
Definition columns (mode when length name : string) : string :=
  ljust 6 mode +:+ "  " +:+ ljust 22 when +:+ "  " +:+ rjust 10 length
  +:+ " " +:+ name.

Definition header (root : ppath) : list string :=
  [ ""; "";
    "Dig: " +:+ str root;
    "";
    columns "Mode" "LastWriteTime" "Length" "Name";
    columns "----" "-------------" "------" "----" ].

Definition footer : list string := [""; ""].

(** [dt.hour % 12 or 12] *)
Definition hour12 (h : nat) : nat :=
  match h mod 12 with
  | 0 => 12
  | k => k
  end.

Definition ampm (h : nat) : string := if h <? 12 then "AM" else "PM".

(** [f"{minute:02d}"] *)
Definition two_digits (n : nat) : string :=
  if n <? 10 then "0" +:+ pretty n else pretty n.

Definition fmt_time (dt : datetime) : string :=
  pretty (month dt) +:+ "/" +:+ pretty (day dt) +:+ "/" +:+ pretty (year dt)
  +:+ "  " +:+ pretty (hour12 (hour dt)) +:+ ":" +:+ two_digits (minute dt)
  +:+ " " +:+ ampm (hour dt).

(** [name.startswith('.')] *)
Definition hidden (name : string) : bool :=
  match name with
  | String "." _ => true
  | _ => false
  end.

(** The order of the keys [(rank, name)]: tuples are compared at their
    first difference. *)
Definition key_lt (a b : nat * string) : bool :=
  if decide (a.1 = b.1) then String.ltb a.2 b.2 else a.1 <? b.1.

Section sorting.
Context {A : Type} (key : A → nat * string).

(** [sorted(_, key=key)] is stable: an element passes, from the left, the
    elements whose key is smaller than its own, and no other. *)
Fixpoint insert (x : A) (l : list A) : list A :=
  match l with
  | [] => [x]
  | y :: l' => if key_lt (key y) (key x) then y :: insert x l' else x :: l
  end.

Definition sorted (l : list A) : list A := foldr insert [] l.

End sorting.

(** The error of a system call on [filename], from the error of the walk. *)
Definition on_file (filename : string) (e : exn) : exn :=
  match kind e with
  | FileNotFoundError =>
      Fs.os_error FileNotFoundError "2" "No such file or directory" filename
  | NotADirectoryError =>
      Fs.os_error NotADirectoryError "20" "Not a directory" filename
  | _ => Fs.os_error OSError "40" "Too many levels of symbolic links" filename
  end.

(** [st.st_size] of what [stat] finds. *)
Definition st_size (n : node) : nat :=
  match n with
  | File data => String.length data
  | Link target => String.length target
  | Dir => 0
  end.

Section listing.
Variable lower : string → string.
Variable last_write : list string → datetime.
Variable fs : gmap (list string) node.
Variable cwd : string.
Variable root : ppath.

(** [p.stat()]: the resolved path and what is there. *)
Definition os_stat (p : ppath) : outcome (list string * node) :=
  match Fs.realpath true Fs.MAXSYMLINKS fs [] (Fs.from_root cwd p) with
  | Raise e => Raise (on_file (str p) e)
  | Return t =>
      match Fs.node_at fs t with
      | Some n => Return (t, n)
      | None => Raise (on_file (str p) (Fs.enoent t))
      end
  end.

(** [root.iterdir()], consumed by [sorted]. *)
Definition iterdir : outcome (list string) :=
  match os_stat root with
  | Raise e => Raise e
  | Return (t, Dir) => Return (Fs.children fs t)
  | Return (t, _) => Raise (on_file (str root) (Fs.enotdir t))
  end.

Definition child (name : string) : ppath := joinpath root (Path name).

(** [(0 if p.is_dir() else 1, p.name.lower())] *)
Definition key (name : string) : nat * string :=
  (if Fs.is_dir fs cwd (child name) then 0 else 1, lower name).

(** The entries to show, in their order. *)
Definition paths (names : list string) (all : bool) : list string :=
  let paths := sorted key names in
  if all then paths else List.filter (λ name, negb (hidden name)) paths.

(** The body of the loop: a row for the output, or a line for the error
    stream when [stat] fails. *)
Definition entry (name : string) : string + string :=
  match os_stat (child name) with
  | Raise e => inr ("peek error: " +:+ name +:+ ": " +:+ message e)
  | Return (t, n) =>
      let mode := if Fs.is_dir fs cwd (child name) then "d-----" else "-a----" in
      let when := fmt_time (last_write t) in
      let length := if Fs.is_dir fs cwd (child name) then "" else pretty (st_size n) in
      inl (columns mode when length name)
  end.

Definition rows (lines : list (string + string)) : list string :=
  omap (λ line, match line with inl row => Some row | inr _ => None end) lines.

Definition complaints (lines : list (string + string)) : list string :=
  omap (λ line, match line with inr err => Some err | inl _ => None end) lines.

(** What [peek] prints and what it writes to the error stream. *)
Definition report (all : bool) : outcome (list string * list string) :=
  match iterdir with
  | Raise e => Raise e
  | Return names =>
      let lines := List.map entry (paths names all) in
      Return (header root ++ rows lines ++ footer, complaints lines)
  end.

End listing.

End Peek.

(** A host for the examples of [peek]: ASCII letters are lowered, and
    every entry was last written on 28 September 2025 at 22:05. *)
Definition ascii_lower (c : ascii) : ascii :=
  let n := nat_of_ascii c in
  if (65 <=? n) && (n <=? 90) then ascii_of_nat (n + 32) else c.

Fixpoint demo_lower (s : string) : string :=
  match s with
  | EmptyString => EmptyString
  | String c s' => String (ascii_lower c) (demo_lower s')
  end.

Definition demo_last_write (t : list string) : Peek.datetime :=
  Peek.Datetime 2025 9 28 22 5.

Definition demo_peek_host : Host := {|
  parse_args := Demo.parse;
  banner := "filebunny";
  shutil_copytree := Demo.refuse;
  shutil_copy2 := Demo.copy_file;
  shutil_move := Demo.refuse;
  os_rename := Demo.refuse;
  peek_report := Peek.report demo_lower demo_last_write;
  subprocess_run := λ l w, (Return (), w)
|}.

(** * Properties *)

(** ** Names and parents of pure paths *)

Lemma name_snoc r l x : name (MkPath r (l ++ [x])) = x.
Proof. unfold name; simpl. apply last_last. Qed.

Lemma parent_with_suffix p ext : parent (with_suffix p ext) = parent p.
Proof. unfold parent, with_suffix; simpl. by rewrite removelast_last. Qed.

Lemma record_name w : name (Storage.path (Storage.init w)) = "spot.json".
Proof. unfold Storage.init, joinpath; simpl. apply name_snoc. Qed.

Lemma tmp_name w :
  name (with_suffix (Storage.path (Storage.init w)) ".tmp") = "spot.tmp".
Proof.
  unfold with_suffix. rewrite name_snoc, record_name. reflexivity.
Qed.

(** ** The state store *)

Lemma State_kwargs_asdict s : State_kwargs (asdict s) = Return s.
Proof. by destruct s. Qed.

(** The steps of a write, with the two file names abstracted: the record
    keeps its old content before the last step, and the last step installs
    the new one and removes the temporary file. *)
Lemma write_steps (tn rn : string) (v : json) (c : gmap string content) (k : nat) :
  tn ≠ rn →
  let script := Storage.write_text tn v ++ [Storage.replace tn rn] in
  (k < length script → Storage.run (take k script) c !! rn = c !! rn)
  ∧ (length script ≤ k →
     Storage.run (take k script) c = delete tn (<[rn := Document v]> c)).
Proof.
  intros Hne script. split.
  - intros Hk. subst script.
    destruct k as [|[|[|[|k]]]]; cbn in Hk; try lia;
      cbn [Storage.write_text app take Storage.run fold_left];
      by rewrite ?lookup_insert_ne.
  - intros Hk. rewrite take_ge by done. subst script.
    cbn [Storage.write_text app Storage.run fold_left].
    unfold Storage.replace. rewrite lookup_insert_eq.
    apply map_eq; intros i.
    destruct (decide (i = tn)) as [->|Hi].
    + by rewrite !lookup_delete_eq.
    + rewrite !lookup_delete_ne by done.
      destruct (decide (i = rn)) as [->|Hi'].
      * by rewrite !lookup_insert_eq.
      * by rewrite !lookup_insert_ne.
Qed.

(** The record after a complete [write] is the serialised state, and the
    temporary file is gone. *)
Lemma write_config self state w :
  name (with_suffix (Storage.path self) ".tmp") ≠ name (Storage.path self) →
  config (Storage.write self state w)
  = delete (name (with_suffix (Storage.path self) ".tmp"))
      (<[name (Storage.path self) := Document (asdict state)]> (config w)).
Proof.
  intros Hne. unfold Storage.write, Storage.write_script. cbn [config set_config].
  destruct (write_steps _ _ (asdict state) (config w) 4 Hne) as [_ Hall].
  rewrite <- Hall by (cbn; lia). by rewrite take_ge by (cbn; lia).
Qed.

Lemma read_after_write state w :
  Storage.read (Storage.init w) (Storage.write (Storage.init w) state w)
  = Return state.
Proof.
  unfold Storage.read. rewrite write_config.
  - rewrite tmp_name, record_name. simpl.
    rewrite lookup_delete_ne by done. rewrite lookup_insert_eq.
    apply State_kwargs_asdict.
  - by rewrite tmp_name, record_name.
Qed.

(** [write] touches the configuration directory only. *)
Lemma write_frame self state w :
  files (Storage.write self state w) = files w
  ∧ getcwd (Storage.write self state w) = getcwd w
  ∧ home (Storage.write self state w) = home w
  ∧ user_config_dir (Storage.write self state w) = user_config_dir w.
Proof. done. Qed.

Lemma init_after_write self state w :
  Storage.init (Storage.write self state w) = Storage.init w.
Proof. done. Qed.

(** C5.  [Storage.write] writes the serialised state to a temporary file
    that lies in the directory of the record and then renames it over the
    record in one step: after any number [k] of the steps of the write the
    record holds its old content or the complete new one, it holds the old
    one until the last step, and the whole write leaves the new one. *)
Theorem Storage_write_atomic (w : world) (state : State) (k : nat) :
  let self := Storage.init w in
  let tmp := with_suffix (Storage.path self) ".tmp" in
  let record := name (Storage.path self) in
  let script := Storage.write_script self state in
  let during := Storage.run (take k script) (config w) in
  parent tmp = parent (Storage.path self)
  ∧ name tmp ≠ record
  ∧ (during !! record = config w !! record
     ∨ during !! record = Some (Document (asdict state)))
  ∧ (k < length script → during !! record = config w !! record)
  ∧ (length script ≤ k → during = config (Storage.write self state w))
  ∧ config (Storage.write self state w) !! record = Some (Document (asdict state))
  ∧ config (Storage.write self state w) !! name tmp = None.
Proof.
  intros self tmp record script during.
  assert (Hne : name tmp ≠ record).
  { subst tmp record self. by rewrite tmp_name, record_name. }
  destruct (write_steps (name tmp) record (asdict state) (config w) k Hne)
    as [Hbefore Hafter].
  assert (Hfinal : config (Storage.write self state w)
                   = delete (name tmp) (<[record := Document (asdict state)]> (config w))).
  { by apply write_config. }
  assert (Hnew : config (Storage.write self state w) !! record
                 = Some (Document (asdict state))).
  { rewrite Hfinal. rewrite lookup_delete_ne by done. apply lookup_insert_eq. }
  split; [apply parent_with_suffix|].
  split; [done|].
  assert (Hdone : length script ≤ k →
                  during = config (Storage.write self state w)).
  { intros Hk. rewrite Hfinal. exact (Hafter Hk). }
  split.
  { destruct (decide (k < length script)) as [Hk|Hk].
    - left. exact (Hbefore Hk).
    - right. rewrite Hdone by lia. exact Hnew. }
  split; [exact Hbefore|].
  split; [exact Hdone|].
  split; [exact Hnew|].
  rewrite Hfinal. apply lookup_delete_eq.
Qed.

(** Two steps into a write over an existing record, the record still is
    the old one. *)
Lemma Storage_write_atomic_witness :
  let w := Demo.with_record (Document (asdict (MkState (JStr "/old")))) Demo.w0 in
  let self := Storage.init w in
  let script := Storage.write_script self (MkState (JStr "/new")) in
  2 < length script
  ∧ Storage.run (take 2 script) (config w) !! name (Storage.path self)
    = config w !! name (Storage.path self).
Proof.
  intros w self script.
  assert (Hk : 2 < length script) by (vm_compute; lia).
  split; [exact Hk|].
  pose proof (Storage_write_atomic w (MkState (JStr "/new")) 2) as H.
  cbv zeta in H. destruct H as (_ & _ & _ & Hbefore & _).
  exact (Hbefore Hk).
Defined.

(** Where [read] heals itself: a missing record, text that is not JSON and
    a torn write all give the process working directory. *)
Lemma read_self_heals self w :
  (config w !! name (Storage.path self) = None
   ∨ (∃ text, config w !! name (Storage.path self) = Some (Garbled text))
   ∨ (∃ v, config w !! name (Storage.path self) = Some (Torn v))) →
  Storage.read self w = Return (MkState (JStr (str (Path (getcwd w))))).
Proof.
  unfold Storage.read. intros [-> | [[text ->] | [v ->]]]; reflexivity.
Qed.

(** A record that is well-formed JSON is handed to the constructor of
    [State], whose [TypeError] no handler of [read] catches. *)
Lemma read_document self w data :
  config w !! name (Storage.path self) = Some (Document data) →
  Storage.read self w = State_kwargs data.
Proof. unfold Storage.read. by intros ->. Qed.

(** C6.  The record [{}] is valid JSON but no valid record: [read] does not
    fall back to the working directory, it raises [TypeError]. *)
Theorem Storage_read_empty_object_raises :
  Storage.read (Storage.init Demo.w0)
    (Demo.with_record (Document (JObj [])) Demo.w0)
  = Raise (Exn TypeError
             "State.__init__() missing 1 required positional argument: 'last_spot'").
Proof. reflexivity. Qed.

(** The same for a JSON list, for a stray key, and for bytes that are not
    UTF-8. *)
Example Storage_read_other_failures :
  (∃ m, Storage.read (Storage.init Demo.w0)
          (Demo.with_record (Document (JArr [])) Demo.w0) = Raise (Exn TypeError m))
  ∧ (∃ m, Storage.read (Storage.init Demo.w0)
            (Demo.with_record
               (Document (JObj [("last_spot", JStr "/home/u"); ("theme", JStr "dark")]))
               Demo.w0) = Raise (Exn TypeError m))
  ∧ (∃ m, Storage.read (Storage.init Demo.w0)
            (Demo.with_record Undecodable Demo.w0) = Raise (Exn UnicodeDecodeError m)).
Proof. repeat split; eexists; reflexivity. Qed.

(** ** hop *)

(** C2.  When the resolved target does not exist, [hop] raises
    [FileNotFoundError]; when it exists and is no directory, [hop] raises
    [NotADirectoryError]; and whenever [hop] raises, the manager (its
    current directory) and the world (the persisted spot with it) are as
    they were. *)
Theorem hop_failure_leaves_state (path : option string) (self : FileManager.t)
    (w : world) (target : list string) :
  Fs.resolve (files w) (getcwd w) (FileManager.hop_path path self w) = Return target →
  (Fs.node_at (files w) target = None →
   FileManager.hop path self w
   = (Raise (Exn FileNotFoundError
               ("path does not exist: " +:+ str (absolute target))), self, w))
  ∧ (∀ n, Fs.node_at (files w) target = Some n → n ≠ Dir →
     FileManager.hop path self w
     = (Raise (Exn NotADirectoryError
                 ("not a directory: " +:+ str (absolute target))), self, w))
  ∧ (∀ e self' w', FileManager.hop path self w = (Raise e, self', w') →
     self' = self ∧ w' = w
     ∧ FileManager.cwd self' = FileManager.cwd self
     ∧ Storage.read (FileManager.storage self) w'
       = Storage.read (FileManager.storage self) w).
Proof.
  intros Hres. unfold FileManager.hop. rewrite Hres. repeat split.
  - by intros ->.
  - intros n -> Hn. by destruct n.
  - destruct (Fs.node_at (files w) target) as [[]|]; congruence.
  - destruct (Fs.node_at (files w) target) as [[]|]; congruence.
  - destruct (Fs.node_at (files w) target) as [[]|]; congruence.
  - destruct (Fs.node_at (files w) target) as [[]|]; congruence.
Qed.

(** Whatever [hop] raises, nothing has changed (also when the resolution
    itself fails). *)
Lemma hop_raise_unchanged path self w e self' w' :
  FileManager.hop path self w = (Raise e, self', w') → self' = self ∧ w' = w.
Proof.
  unfold FileManager.hop.
  destruct (Fs.resolve _ _ _) as [target|e0]; [|by intros [= _ <- <-]].
  destruct (Fs.node_at (files w) target) as [[]|]; by intros [= _ <- <-] || intros [=].
Qed.

Lemma hop_failure_leaves_state_witness :
  FileManager.hop (Some "nowhere") Demo.fm0 Demo.w0
  = (Raise (Exn FileNotFoundError "path does not exist: /home/u/nowhere"),
     Demo.fm0, Demo.w0)
  ∧ FileManager.hop (Some "notes.txt") Demo.fm0 Demo.w0
    = (Raise (Exn NotADirectoryError "not a directory: /home/u/notes.txt"),
       Demo.fm0, Demo.w0).
Proof.
  split.
  - refine (proj1 (hop_failure_leaves_state (Some "nowhere") Demo.fm0 Demo.w0
                     ["home"; "u"; "nowhere"] _) _); reflexivity.
  - refine (proj1 (proj2 (hop_failure_leaves_state (Some "notes.txt") Demo.fm0 Demo.w0
                            ["home"; "u"; "notes.txt"] _)) (File "hello") _ _);
      [reflexivity | reflexivity | discriminate].
Defined.

(** ** Frame properties of the operations *)

(** What [Storage.read] and the construction of a manager look at. *)
Lemma read_ext self w w' :
  config w' = config w → getcwd w' = getcwd w →
  Storage.read self w' = Storage.read self w.
Proof. unfold Storage.read, Storage.fallback. by intros -> ->. Qed.

Lemma init_ext storage w w' :
  config w' = config w → getcwd w' = getcwd w →
  FileManager.init storage w' = FileManager.init storage w.
Proof. intros Hc Hd. unfold FileManager.init. by rewrite (read_ext _ _ _ Hc Hd). Qed.

(** Case analysis on the innermost [match] of the goal, so that the
    branches of an operation are visited in the order the code takes them. *)
Ltac inner_case :=
  match goal with
  | |- context [match ?x with _ => _ end] =>
      lazymatch x with
      | context [match _ with _ => _ end] => fail
      | _ => destruct x
      end
  end.

Ltac frame_op := repeat inner_case; cbn; auto.



(** ** The command-line entry point *)

Lemma launched_prints out w :
  launched (fold_left (λ w line, print line w) out w) = launched w.
Proof. revert w. induction out as [|l out IH]; intros w; [done|]. cbn. by rewrite IH. Qed.

Lemma launched_eprints err w :
  launched (fold_left (λ w line, eprint line w) err w) = launched w.
Proof. revert w. induction err as [|l err IH]; intros w; [done|]. cbn. by rewrite IH. Qed.

(** A direct command starts no shell. *)
Lemma dispatch_launched `{Host} c fm w :
  launched (Cli.dispatch c fm w).2 = launched w.
Proof.
  destruct c;
    unfold Cli.dispatch, Cli.guarded, Cli.unguarded, FileManager.spot,
      FileManager.hop, FileManager.copy, FileManager.move, FileManager.rename,
      FileManager.delete, FileManager.dig, FileManager.carrot;
    repeat inner_case; cbn; rewrite ?launched_eprints, ?launched_prints; auto.
Qed.

Lemma direct_launched `{Host} c w : launched (Cli.direct c w).2 = launched w.
Proof.
  unfold Cli.direct. destruct (FileManager.init _ _); [|done].
  apply dispatch_launched.
Qed.

(** C3.  While the marker [FILEBUNNY_BURROW] is ["1"] no invocation starts
    a shell; and an invocation without a subcommand (the parser returns a
    namespace whose command is [None]; a top-level help request never gets
    that far) prints the fixed notice and returns, so that the process
    exits with status zero. *)
Theorem nested_session_refused `{Host} (argv : list string) (w : world) :
  environ w !! "FILEBUNNY_BURROW" = Some "1" →
  launched (Cli.main argv w).2 = launched w
  ∧ (∀ verbose,
       Cli.top_level_help argv && negb (Cli.mentions_sub argv) = false →
       parse_args argv = Namespace None verbose →
       Cli.main argv w = (Returned, print Cli.notice w)
       ∧ exit_status (Cli.main argv w).1 = 0
       ∧ stdout (Cli.main argv w).2
         = stdout w ++ ["Already inside a filebunny burrow. Use 'leave' to exit."]
       ∧ stderr (Cli.main argv w).2 = stderr w).
Proof.
  intros Hmark. split.
  - unfold Cli.main.
    destruct (Cli.top_level_help argv && negb (Cli.mentions_sub argv)); [done|].
    destruct (parse_args argv) as [[c|] v|status out err].
    + apply direct_launched.
    + by rewrite bool_decide_eq_true_2.
    + cbn. by rewrite launched_eprints, launched_prints.
  - intros verbose Hhelp Hparse.
    assert (Hmain : Cli.main argv w = (Returned, print Cli.notice w)).
    { unfold Cli.main. rewrite Hhelp, Hparse. by rewrite bool_decide_eq_true_2. }
    rewrite Hmain. done.
Qed.

Lemma nested_session_refused_witness :
  Cli.main (H := Demo.host) [] Demo.burrowed
  = (Returned, print Cli.notice Demo.burrowed)
  ∧ launched (Cli.main (H := Demo.host) [] Demo.burrowed).2 = [].
Proof.
  destruct (nested_session_refused (H := Demo.host) [] Demo.burrowed eq_refl)
    as [Hnone Hnotice].
  split.
  - exact (proj1 (Hnotice false eq_refl eq_refl)).
  - exact Hnone.
Defined.

(** Outside a burrow the same invocation does start a shell. *)
Example session_entered :
  launched (Cli.main (H := Demo.host) [] Demo.w0).2 = [PlainShell "/bin/sh" "/home/u"].
Proof. reflexivity. Qed.

(** The branches of [main] that have a handler: a failure is one line on
    the error stream, prefixed by the name of the command, and
    [SystemExit(1)]. *)
Lemma guarded_failure cmd e fm w :
  Cli.guarded cmd (Raise e, fm, w)
  = (SystemExit 1, eprint (cmd +:+ " error: " +:+ message e) w).
Proof. reflexivity. Qed.

(** The commands [spot], [hop], [dig] and [carrot] end by returning or with
    [SystemExit(1)] and exactly one more line on the error stream. *)
Lemma guarded_commands_diagnose `{Host} (c : command) fm w :
  match c with
  | CSpot | CHop _ | CDig _ | CCarrot _ => True
  | _ => False
  end →
  (Cli.dispatch c fm w).1 = Returned
  ∨ ((Cli.dispatch c fm w).1 = SystemExit 1
     ∧ ∃ cmd e, stderr (Cli.dispatch c fm w).2 = stderr w ++ [Cli.diagnostic cmd e]).
Proof.
  destruct c; try done; intros _;
    unfold Cli.dispatch, Cli.guarded, FileManager.spot, FileManager.hop,
      FileManager.dig, FileManager.carrot;
    repeat inner_case; cbn [fst snd stderr eprint]; eauto.
Qed.

(** The branches without a handler ([copy], [move], [bury], [rename]):
    the exception leaves [main], nothing is written to the error stream by
    the program, and the interpreter prints the traceback. *)
Lemma unguarded_failure `{Host} (c : command) fm w :
  match c with
  | CCopy _ _ | CMove _ _ | CBury _ | CRename _ _ => True
  | _ => False
  end →
  (∃ e, (Cli.dispatch c fm w).1 = Uncaught e
        ∧ stderr (Cli.dispatch c fm w).2 = stderr w)
  ∨ (Cli.dispatch c fm w).1 = Returned.
Proof.
  destruct c; try done; intros _;
    unfold Cli.dispatch, Cli.unguarded, FileManager.copy, FileManager.move,
      FileManager.rename, FileManager.delete;
    repeat inner_case; cbn; eauto.
Qed.

(** C8.  [filebunny bury nope.txt] where [nope.txt] does not exist: the
    [FileNotFoundError] of [delete] is not caught, so the process ends with
    a traceback and without the line [bury error: ...]. *)
Theorem bury_missing_path_is_uncaught :
  Cli.main (H := Demo.host) ["bury"; "nope.txt"] Demo.w0
  = (Uncaught (Exn FileNotFoundError
                 "[Errno 2] No such file or directory: '/home/u/nope.txt'"), Demo.w0)
  ∧ traceback (Cli.main (H := Demo.host) ["bury"; "nope.txt"] Demo.w0).1 = true
  ∧ stderr (Cli.main (H := Demo.host) ["bury"; "nope.txt"] Demo.w0).2 = [].
Proof. by vm_compute. Qed.

(** The branch of [hop] has the handler: one line and [SystemExit(1)]. *)
Example hop_missing_path_is_diagnosed :
  Cli.main (H := Demo.host) ["hop"; "nope"] Demo.w0
  = (SystemExit 1, eprint "hop error: path does not exist: /home/u/nope" Demo.w0).
Proof. by vm_compute. Qed.

(** ** Parsing and printing paths *)

Section path_text.

Lemma split_no_slash x : has_slash x = false → split x = [x].
Proof.
  induction x as [|c x IH]; [done|]. cbn. intros Hs.
  apply orb_false_iff in Hs as [Hc Hx]. apply bool_decide_eq_false in Hc.
  rewrite decide_False by done. by rewrite IH.
Qed.

Lemma split_app_slash x r :
  has_slash x = false → split (x +:+ String slash r) = x :: split r.
Proof.
  induction x as [|c x IH]; [done|]. cbn. intros Hs.
  apply orb_false_iff in Hs as [Hc Hx]. apply bool_decide_eq_false in Hc.
  change (split (String c (x +:+ String slash r)) = String c x :: split r).
  cbn [split]. rewrite decide_False by done. by rewrite IH.
Qed.

Lemma split_join l :
  Forall clean l → l ≠ [] → split (join l) = l.
Proof.
  induction 1 as [|x l [_ [_ Hx]] Hl IH]; [done|]. intros _.
  destruct l as [|y l].
  - by apply split_no_slash.
  - change (join (x :: y :: l)) with (x +:+ String slash (join (y :: l))).
    rewrite split_app_slash by done. by rewrite IH.
Qed.

Lemma split_has_no_slash s : Forall (λ c, has_slash c = false) (split s).
Proof.
  induction s as [|c s IH]; cbn; [by repeat constructor|].
  destruct (decide (c = slash)) as [->|Hc]; [by constructor|].
  destruct (split s) as [|x xs]; inversion IH; subst.
  - by repeat constructor; cbn; rewrite bool_decide_eq_false_2.
  - constructor; [|done]. cbn. by rewrite bool_decide_eq_false_2.
Qed.

Lemma kept_clean c : kept c = true → has_slash c = false → clean c.
Proof.
  unfold kept. intros Hk Hs. apply andb_true_iff in Hk as [H1 H2].
  apply negb_true_iff, bool_decide_eq_false in H1, H2. done.
Qed.

Lemma clean_kept c : clean c → kept c = true.
Proof.
  intros (H1 & H2 & _). unfold kept.
  by rewrite !bool_decide_eq_false_2.
Qed.

Lemma filter_kept_clean l : Forall clean l → List.filter kept l = l.
Proof.
  induction 1 as [|x l Hx Hl IH]; [done|]. cbn.
  by rewrite clean_kept, IH.
Qed.

(** What [Path] leaves in [parts] is well-formed. *)
Lemma Path_parts_clean s : Forall clean (parts (Path s)).
Proof.
  unfold Path; cbn. pose proof (split_has_no_slash s) as H.
  induction H as [|x l Hx Hl IH]; cbn; [constructor|].
  destruct (kept x) eqn:Hk; [|done].
  constructor; [by apply kept_clean|done].
Qed.

Lemma leading_slashes_join l : Forall clean l → leading_slashes (join l) = 0.
Proof.
  intros [|x l' (Hne & _ & Hs) _]; [done|].
  destruct x as [|c x]; [done|]. cbn in Hs.
  apply orb_false_iff in Hs as [Hc _]. apply bool_decide_eq_false in Hc.
  destruct l' as [|y l'].
  - cbn. by rewrite decide_False.
  - change (join (String c x :: y :: l'))
      with (String c (x +:+ String slash (join (y :: l')))).
    cbn [leading_slashes]. by rewrite decide_False.
Qed.

(** Printing a resolved path and parsing it again gives it back. *)
Lemma Path_str_absolute t : Forall clean t → Path (str (absolute t)) = absolute t.
Proof.
  intros Ht. unfold Path, absolute, str; cbn [root parts].
  change ("/" +:+ join t) with (String slash (join t)).
  unfold anchor_of. cbn [leading_slashes]. rewrite decide_True by done.
  rewrite leading_slashes_join by done. f_equal.
  cbn [split]. rewrite decide_True by done.
  change (List.filter kept ("" :: split (join t)))
    with (List.filter kept (split (join t))).
  destruct t as [|x t]; [done|].
  rewrite split_join by done. by apply filter_kept_clean.
Qed.

End path_text.

(** ** Resolution *)

Lemma realpath_unfold strict budget fs cur rest :
  Fs.realpath strict budget fs cur rest
  = match rest with
    | [] => Return cur
    | c :: rest' =>
        if decide (c = "..") then Fs.realpath strict budget fs (removelast cur) rest'
        else
          match fs !! (cur ++ [c]) with
          | Some (Link tgt) =>
              match budget with
              | 0 => Raise (Fs.eloop strict (cur ++ [c]))
              | S b =>
                  Fs.realpath strict b fs
                    (if is_absolute (Path tgt) then [] else cur)
                    (parts (Path tgt) ++ rest')
              end
          | Some n =>
              if strict && negb (bool_decide (rest' = [])) && negb (Fs.is_dir_node n)
              then Raise (Fs.enotdir (cur ++ [c]))
              else Fs.realpath strict budget fs (cur ++ [c]) rest'
          | None =>
              if strict then Raise (Fs.enoent (cur ++ [c]))
              else Fs.realpath strict budget fs (cur ++ [c]) rest'
          end
    end.
Proof. destruct budget, rest; reflexivity. Qed.

Lemma Forall_removelast {A} (P : A → Prop) l : Forall P l → Forall P (removelast l).
Proof.
  induction 1 as [|x l Hx Hl IH]; [constructor|].
  destruct l; cbn in *; [constructor|by constructor].
Qed.

(** A resolved path is made of well-formed components. *)
Lemma realpath_clean strict budget fs cur rest t :
  Forall clean cur → Forall clean rest →
  Fs.realpath strict budget fs cur rest = Return t → Forall clean t.
Proof.
  revert cur rest.
  induction budget as [|b IHb]; intros cur rest; revert cur;
    induction rest as [|c rest IHr]; intros cur Hcur Hrest;
    rewrite realpath_unfold; try (intros [= <-]; done);
    apply Forall_cons in Hrest as [Hc Hrest];
    (destruct (decide (c = ".."));
     [by apply IHr; [apply Forall_removelast|]|]);
    assert (Hnext : Forall clean (cur ++ [c]))
      by (apply Forall_app; split; [done|by constructor]);
    destruct (fs !! (cur ++ [c])) as [[data|tgt|]|];
    repeat match goal with
           | |- context [if ?b then Raise _ else _] => destruct b
           end;
    try discriminate; try (by apply IHr).
  apply IHb.
  - by destruct (is_absolute (Path tgt)).
  - apply Forall_app; split; [apply Path_parts_clean|done].
Qed.

Lemma from_root_clean cwd p :
  Forall clean (parts p) → Forall clean (Fs.from_root cwd p).
Proof.
  intros Hp. unfold Fs.from_root. destruct (is_absolute p); [done|].
  apply Forall_app; split; [apply Path_parts_clean|done].
Qed.

Lemma resolve_clean fs cwd p t :
  Forall clean (parts p) → Fs.resolve fs cwd p = Return t → Forall clean t.
Proof.
  intros Hp. apply realpath_clean; [constructor|by apply from_root_clean].
Qed.

Lemma joinpath_clean a b :
  Forall clean (parts a) → Forall clean (parts b) → Forall clean (parts (joinpath a b)).
Proof.
  intros Ha Hb. unfold joinpath. destruct (is_absolute b); [done|].
  by apply Forall_app.
Qed.

Lemma hop_path_clean path self w :
  Forall clean (parts (FileManager.cwd self)) →
  Forall clean (parts (FileManager.hop_path path self w)).
Proof.
  intros Hcwd. unfold FileManager.hop_path.
  destruct path as [[|c s]|];
    match goal with
    | |- context [negb (is_absolute ?p)] =>
        destruct (is_absolute p); cbn [negb];
        [apply Path_parts_clean | apply joinpath_clean; [done|apply Path_parts_clean]]
    end.
Qed.

(** The managers the program builds hold parsed paths. *)
Lemma init_clean storage w fm :
  FileManager.init storage w = Return fm → Forall clean (parts (FileManager.cwd fm)).
Proof.
  unfold FileManager.init.
  destruct (Storage.read storage w) as [st|]; [|done].
  destruct (last_spot st); cbn; try done.
  intros [= <-]. apply Path_parts_clean.
Qed.



(** ** Direct commands and the persisted spot *)

Lemma prints_world out w :
  fold_left (λ w line, print line w) out w
  = World (files w) (config w) (getcwd w) (home w) (environ w) (system w)
          (user_config_dir w) (stdout w ++ out) (stderr w) (launched w).
Proof.
  revert w. induction out as [|l out IH]; intros w; cbn.
  - rewrite app_nil_r. by destruct w.
  - rewrite IH. cbn. by rewrite <- app_assoc.
Qed.

Lemma eprints_world err w :
  fold_left (λ w line, eprint line w) err w
  = World (files w) (config w) (getcwd w) (home w) (environ w) (system w)
          (user_config_dir w) (stdout w) (stderr w ++ err) (launched w).
Proof.
  revert w. induction err as [|l err IH]; intros w; cbn.
  - rewrite app_nil_r. by destruct w.
  - rewrite IH. cbn. by rewrite <- app_assoc.
Qed.

(** A direct command run by two managers that differ in the state they
    read at start-up, in two worlds that differ in the configuration
    directory: same termination, same output, same file tree; and the
    configuration directories are both untouched or both written by the
    same [Storage.write]. *)
Lemma dispatch_ignores_config `{Host} (c : command) (storage : Storage.t)
    (st1 st2 : State) (cwd : ppath) (w : world) (cfg1 cfg2 : gmap string content) :
  let r1 := Cli.dispatch c (FileManager.Make storage st1 cwd) (set_config cfg1 w) in
  let r2 := Cli.dispatch c (FileManager.Make storage st2 cwd) (set_config cfg2 w) in
  r1.1 = r2.1
  ∧ same_but_config r1.2 r2.2
  ∧ ((config r1.2 = cfg1 ∧ config r2.2 = cfg2)
     ∨ ∃ st', config r1.2 = Storage.run (Storage.write_script storage st') cfg1
              ∧ config r2.2 = Storage.run (Storage.write_script storage st') cfg2).
Proof.
  destruct c;
    unfold Cli.dispatch, Cli.guarded, Cli.unguarded, FileManager.spot,
      FileManager.hop, FileManager.hop_path, FileManager._persist, Storage.write,
      FileManager.copy, FileManager.move, FileManager.rename,
      FileManager.delete, FileManager.dig, FileManager.carrot, same_but_config;
    cbn [files getcwd home set_config FileManager.cwd FileManager.storage
         FileManager.set_cwd];
    repeat inner_case;
    rewrite ?eprints_world, ?prints_world;
    cbn [fst snd files config getcwd home environ system user_config_dir
         stdout stderr launched print eprint set_config set_files];
    (split; [reflexivity|]);
    (split; [repeat split; reflexivity|]);
    first [left; split; reflexivity | right; eexists; split; reflexivity].
Qed.

Lemma run_write_script self st c :
  name (with_suffix (Storage.path self) ".tmp") ≠ name (Storage.path self) →
  Storage.run (Storage.write_script self st) c
  = delete (name (with_suffix (Storage.path self) ".tmp"))
      (<[name (Storage.path self) := Document (asdict st)]> c).
Proof.
  intros Hne. unfold Storage.write_script.
  destruct (write_steps _ _ (asdict st) c 4 Hne) as [_ Hall].
  rewrite <- Hall by (cbn; lia). by rewrite take_ge by (cbn; lia).
Qed.

(** A manager built on a well-formed record holds the recorded spot. *)
Lemma init_on_record w cfg s :
  cfg !! name (Storage.path (Storage.init w))
  = Some (Document (asdict (MkState (JStr s)))) →
  FileManager.init (Storage.init (set_config cfg w)) (set_config cfg w)
  = Return (FileManager.Make (Storage.init w) (MkState (JStr s)) (Path s)).
Proof.
  intros Hrec. unfold FileManager.init, Storage.read.
  change (Storage.init (set_config cfg w)) with (Storage.init w).
  cbn [config set_config]. by rewrite Hrec.
Qed.

(** In a direct command the base directory of the manager is
    [Path.cwd()], whatever spot the record holds. *)
Lemma direct_base_is_cwd `{Host} c w cfg s :
  cfg !! name (Storage.path (Storage.init w))
  = Some (Document (asdict (MkState (JStr s)))) →
  Cli.direct c (set_config cfg w)
  = Cli.dispatch c
      (FileManager.Make (Storage.init w) (MkState (JStr s)) (Path (getcwd w)))
      (set_config cfg w).
Proof. intros Hrec. unfold Cli.direct. by rewrite (init_on_record _ _ _ Hrec). Qed.



(** With the spot at [/home] and the process in [/home/u], [copy] reads
    [/home/u/notes.txt] and writes [/home/u/copy.txt]. *)
Example direct_copy_resolves_against_cwd :
  let w1 := Demo.with_record (Document (asdict (MkState (JStr "/home")))) Demo.w0 in
  files (Cli.main (H := Demo.host) ["copy"; "notes.txt"; "copy.txt"] w1).2
    !! ["home"; "u"; "copy.txt"] = Some (File "hello")
  ∧ files (Cli.main (H := Demo.host) ["copy"; "notes.txt"; "copy.txt"] w1).2
    !! ["home"; "copy.txt"] = None.
Proof. vm_compute. split; reflexivity. Qed.

(** ** delete *)

Lemma rmtree_inside fs t q : t `prefix_of` q → Fs.rmtree fs t !! q = None.
Proof.
  intros Hq. unfold Fs.rmtree. apply map_lookup_filter_None_2.
  right. intros x _ Hn. by apply Hn.
Qed.

Lemma rmtree_outside fs t q : ¬ t `prefix_of` q → Fs.rmtree fs t !! q = fs !! q.
Proof.
  intros Hq. unfold Fs.rmtree. destruct (fs !! q) as [x|] eqn:Hx.
  - by apply map_lookup_filter_Some_2.
  - apply map_lookup_filter_None_2. by left.
Qed.

(** What [delete] does, by the resolved target. *)
Lemma delete_on_target path self w target :
  Fs.resolve (files w) (getcwd w) (joinpath (FileManager.cwd self) (Path path))
  = Return target →
  (Fs.node_at (files w) target = Some Dir →
   FileManager.delete path self w
   = (Return (), self, set_files (Fs.rmtree (files w) target) w))
  ∧ (Fs.node_at (files w) target = None →
     FileManager.delete path self w
     = (Raise (Fs.enoent target), self, w)).
Proof.
  intros Hres. unfold FileManager.delete. rewrite Hres. split.
  - by intros ->.
  - intros Hnone. rewrite Hnone.
    assert (Hlook : files w !! target = None) by (by destruct target).
    unfold Fs.unlink. by rewrite Hlook.
Qed.

(** A walk without links and without [..] is the lexical one. *)
Lemma realpath_plain fs budget xs : ∀ cur rest,
  Fs.plain fs cur xs →
  Fs.realpath false budget fs cur (xs ++ rest)
  = Fs.realpath false budget fs (cur ++ xs) rest.
Proof.
  induction xs as [|x xs IH]; intros cur rest Hplain.
  - by rewrite app_nil_r.
  - destruct (Hplain 0 x eq_refl) as [Hdots Hlink]. cbn [take] in Hlink.
    assert (Hrest : Fs.realpath false budget fs (cur ++ [x]) (xs ++ rest)
                    = Fs.realpath false budget fs (cur ++ x :: xs) rest).
    { rewrite IH.
      - by rewrite <- app_assoc.
      - intros k c Hk. destruct (Hplain (S k) c Hk) as [Hd Hl].
        split; [done|]. intros tgt. rewrite <- app_assoc. apply Hl. }
    rewrite <- app_comm_cons, realpath_unfold. rewrite decide_False by done.
    destruct (fs !! (cur ++ [x])) as [[data|tgt|]|] eqn:Hx; cbn [andb].
    + exact Hrest.
    + by destruct (Hlink tgt).
    + exact Hrest.
    + exact Hrest.
Qed.

(** A path whose last component is a symbolic link resolves to what the
    target of the link resolves to, from the directory of the link. *)
Lemma resolve_final_link fs budget dir n tgt :
  Fs.plain fs [] dir → n ≠ ".." → fs !! (dir ++ [n]) = Some (Link tgt) →
  Fs.realpath false (S budget) fs [] (dir ++ [n])
  = Fs.realpath false budget fs
      (if is_absolute (Path tgt) then [] else dir) (parts (Path tgt)).
Proof.
  intros Hplain Hn Hlink. rewrite realpath_plain by done. cbn [app].
  rewrite realpath_unfold. rewrite decide_False by done.
  by rewrite Hlink, app_nil_r.
Qed.

(** The path is a symbolic link (reached without meeting another one)
    whose target resolves to a directory: [delete] removes that directory
    and keeps the link, unless the link lies inside the directory. *)
Lemma delete_symlink_to_directory path self w dir n tgt target :
  Fs.from_root (getcwd w) (joinpath (FileManager.cwd self) (Path path)) = dir ++ [n] →
  Fs.plain (files w) [] dir → n ≠ ".." →
  files w !! (dir ++ [n]) = Some (Link tgt) →
  Fs.realpath false (pred Fs.MAXSYMLINKS) (files w)
    (if is_absolute (Path tgt) then [] else dir) (parts (Path tgt)) = Return target →
  Fs.node_at (files w) target = Some Dir →
  ¬ target `prefix_of` dir ++ [n] →
  ∃ w', FileManager.delete path self w = (Return (), self, w')
        ∧ files w' !! target = None
        ∧ files w' !! (dir ++ [n]) = Some (Link tgt).
Proof.
  intros Hroot Hplain Hn Hlink Htgt Hdir Hout.
  assert (Hres : Fs.resolve (files w) (getcwd w)
                   (joinpath (FileManager.cwd self) (Path path)) = Return target).
  { unfold Fs.resolve. rewrite Hroot.
    change Fs.MAXSYMLINKS with (S (pred Fs.MAXSYMLINKS)).
    by rewrite (resolve_final_link _ _ _ _ _ Hplain Hn Hlink). }
  eexists. split; [exact (proj1 (delete_on_target _ _ _ _ Hres) Hdir)|].
  cbn [files set_files]. split.
  - by apply rmtree_inside.
  - by rewrite rmtree_outside.
Qed.

(** The path is a symbolic link whose target resolves to nothing:
    [delete] raises, and the link is still there. *)
Lemma delete_dangling_symlink path self w dir n tgt target :
  Fs.from_root (getcwd w) (joinpath (FileManager.cwd self) (Path path)) = dir ++ [n] →
  Fs.plain (files w) [] dir → n ≠ ".." →
  files w !! (dir ++ [n]) = Some (Link tgt) →
  Fs.realpath false (pred Fs.MAXSYMLINKS) (files w)
    (if is_absolute (Path tgt) then [] else dir) (parts (Path tgt)) = Return target →
  Fs.node_at (files w) target = None →
  ∃ m, FileManager.delete path self w = (Raise (Exn FileNotFoundError m), self, w)
       ∧ files (FileManager.delete path self w).2 !! (dir ++ [n]) = Some (Link tgt).
Proof.
  intros Hroot Hplain Hn Hlink Htgt Hnone.
  assert (Hres : Fs.resolve (files w) (getcwd w)
                   (joinpath (FileManager.cwd self) (Path path)) = Return target).
  { unfold Fs.resolve. rewrite Hroot.
    change Fs.MAXSYMLINKS with (S (pred Fs.MAXSYMLINKS)).
    by rewrite (resolve_final_link _ _ _ _ _ Hplain Hn Hlink). }
  eexists. rewrite (proj2 (delete_on_target _ _ _ _ Hres) Hnone). done.
Qed.



(** ** carrot *)

Lemma prefix_cons_nonempty {A} (q : list A) c rest :
  q ≠ [] → q `prefix_of` c :: rest → ∃ q', q = c :: q' ∧ q' `prefix_of` rest.
Proof.
  destruct q as [|x q]; [done|]. intros _ Hq.
  pose proof (prefix_cons_inv_1 _ _ _ _ Hq) as ->.
  exists q. split; [done|]. by eapply prefix_cons_inv_2.
Qed.

Lemma snoc_app_ne {A} (cur : list A) c q : q ≠ [] → cur ++ [c] ≠ (cur ++ [c]) ++ q.
Proof.
  intros Hq Heq. apply (f_equal length) in Heq. rewrite !length_app in Heq.
  destruct q; [done|]. cbn in Heq. lia.
Qed.

(** [mkdir -p] along [rest] succeeds when nothing but directories is in
    the way; afterwards every directory of the chain exists, what existed
    is kept, and what is new is a directory of the chain. *)
Lemma mkdir_parents_spec rest : ∀ fs cur,
  (∀ q, q ≠ [] → q `prefix_of` rest →
        fs !! (cur ++ q) = None ∨ fs !! (cur ++ q) = Some Dir) →
  ∃ fs', Fs.mkdir_parents fs cur rest = Return fs'
    ∧ (∀ q, q ≠ [] → q `prefix_of` rest → fs' !! (cur ++ q) = Some Dir)
    ∧ (∀ k n, fs !! k = Some n → fs' !! k = Some n)
    ∧ (∀ k, fs !! k = None →
            fs' !! k = None
            ∨ (fs' !! k = Some Dir ∧ ∃ q, q ≠ [] ∧ q `prefix_of` rest ∧ k = cur ++ q)).
Proof.
  induction rest as [|c rest IH]; intros fs cur Hfree.
  - exists fs. split; [done|]. split; [|split].
    + intros q Hq Hp. apply prefix_nil_inv in Hp. done.
    + done.
    + intros k Hk. by left.
  - assert (Hhere : fs !! (cur ++ [c]) = None ∨ fs !! (cur ++ [c]) = Some Dir).
    { apply Hfree; [done|]. apply prefix_cons, prefix_nil. }
    set (fs1 := match fs !! (cur ++ [c]) with
                | None => <[cur ++ [c] := Dir]> fs
                | Some _ => fs
                end).
    assert (Hstep : Fs.mkdir_parents fs cur (c :: rest)
                    = Fs.mkdir_parents fs1 (cur ++ [c]) rest).
    { cbn [Fs.mkdir_parents]. subst fs1. by destruct Hhere as [-> | ->]. }
    assert (Hdir1 : fs1 !! (cur ++ [c]) = Some Dir).
    { subst fs1. destruct Hhere as [-> | Hd]; [apply lookup_insert_eq|].
      by rewrite Hd. }
    assert (Hother : ∀ k, k ≠ cur ++ [c] → fs1 !! k = fs !! k).
    { intros k Hk. subst fs1. destruct (fs !! (cur ++ [c])); [done|].
      by rewrite lookup_insert_ne. }
    destruct (IH fs1 (cur ++ [c])) as (fs' & Hrun & Hdirs & Hkeep & Hnew).
    { intros q Hq Hp. rewrite Hother by (by apply not_eq_sym, snoc_app_ne).
      rewrite <- app_assoc. apply Hfree; [done|]. by apply prefix_cons. }
    exists fs'. split; [by rewrite Hstep|]. split; [|split].
    + intros q Hq Hp.
      destruct (prefix_cons_nonempty q c rest Hq Hp) as (q' & -> & Hp').
      destruct q' as [|x q'].
      * by apply Hkeep.
      * change (cur ++ c :: x :: q') with (cur ++ [c] ++ x :: q').
        rewrite app_assoc. by apply Hdirs.
    + intros k n Hk. apply Hkeep.
      destruct (decide (k = cur ++ [c])) as [->|Hne]; [|by rewrite Hother].
      rewrite Hdir1. destruct Hhere; congruence.
    + intros k Hk. destruct (decide (k = cur ++ [c])) as [->|Hne].
      * right. split; [by apply Hkeep|].
        exists [c]. split; [done|]. split; [|done]. apply prefix_cons, prefix_nil.
      * destruct (Hnew k) as [Hn | (Hd & q & Hq & Hp & ->)].
        { by rewrite Hother. }
        { by left. }
        right. split; [done|]. exists (c :: q).
        split; [done|]. split; [by apply prefix_cons|]. by rewrite <- app_assoc.
Qed.

(** [mkdir -p] over a chain of existing directories changes nothing. *)
Lemma mkdir_parents_idle rest : ∀ fs cur,
  (∀ q, q ≠ [] → q `prefix_of` rest → fs !! (cur ++ q) = Some Dir) →
  Fs.mkdir_parents fs cur rest = Return fs.
Proof.
  induction rest as [|c rest IH]; intros fs cur Hdirs; [done|].
  cbn [Fs.mkdir_parents]. rewrite (Hdirs [c]) by (done || apply prefix_cons, prefix_nil).
  apply IH. intros q Hq Hp. rewrite <- app_assoc. apply Hdirs; [done|].
  by apply prefix_cons.
Qed.

(** Resolution looks at the links of the tree only. *)
Lemma realpath_links_agree fs fs' :
  (∀ k tgt, fs' !! k = Some (Link tgt) ↔ fs !! k = Some (Link tgt)) →
  ∀ budget cur rest,
    Fs.realpath false budget fs' cur rest = Fs.realpath false budget fs cur rest.
Proof.
  intros Hagree budget.
  induction budget as [|b IHb]; intros cur rest; revert cur;
    induction rest as [|c rest IHr]; intros cur;
    rewrite (realpath_unfold _ _ fs'), (realpath_unfold _ _ fs); try done;
    (destruct (decide (c = "..")); [by apply IHr|]);
    destruct (fs !! (cur ++ [c])) as [[d|tgt|]|] eqn:E;
    destruct (fs' !! (cur ++ [c])) as [[d'|tgt'|]|] eqn:E';
    try (apply Hagree in E; congruence);
    try (apply Hagree in E'; congruence);
    cbn [andb]; try apply IHr.
  apply Hagree in E'. replace tgt' with tgt by congruence. apply IHb.
Qed.

Lemma prefix_removelast_ne {A} (q target : list A) :
  target ≠ [] → q `prefix_of` removelast target → q ≠ target.
Proof.
  intros Ht Hq ->. apply prefix_length in Hq.
  destruct target as [|x t] using rev_ind; [done|].
  rewrite removelast_last, length_app in Hq. cbn in Hq. lia.
Qed.

(** C9.  For a path whose resolved target has nothing but directories (or
    nothing at all) above it, [carrot] returns the resolved absolute path;
    afterwards every directory above the target exists, a target that was
    absent is an empty file, every entry that existed is what it was (an
    existing file keeps its contents), and a second [carrot] returns the
    same path and changes nothing. *)
Theorem carrot_creates_and_keeps (path : string) (self : FileManager.t)
    (w : world) (target : list string) :
  Fs.resolve (files w) (getcwd w) (joinpath (FileManager.cwd self) (Path path))
  = Return target →
  (∀ q, q `prefix_of` removelast target →
        Fs.node_at (files w) q = None ∨ Fs.node_at (files w) q = Some Dir) →
  ∃ w1,
    FileManager.carrot path self w = (Return (str (absolute target)), self, w1)
    ∧ (∀ q, q `prefix_of` removelast target → Fs.node_at (files w1) q = Some Dir)
    ∧ (Fs.node_at (files w) target = None →
       Fs.node_at (files w1) target = Some (File ""))
    ∧ (∀ data, Fs.node_at (files w) target = Some (File data) →
       Fs.node_at (files w1) target = Some (File data))
    ∧ (∀ q n, files w !! q = Some n → files w1 !! q = Some n)
    ∧ FileManager.carrot path self w1 = (Return (str (absolute target)), self, w1).
Proof.
  intros Hres Hfree.
  destruct (mkdir_parents_spec (removelast target) (files w) [])
    as (fs' & Hrun & Hdirs & Hkeep & Hnew).
  { intros q Hq Hp. destruct (Hfree q Hp) as [Hn | Hd]; destruct q; try done; auto. }
  cbn [app] in Hdirs, Hnew.
  set (fs1 := Fs.touch fs' target).
  assert (Hshort : ∀ q, q ≠ [] → q `prefix_of` removelast target → q ≠ target).
  { intros q Hq Hp. apply prefix_removelast_ne; [|done].
    intros ->. apply prefix_nil_inv in Hp. done. }
  assert (Htarget_kept : ∀ n, files w !! target = Some n → fs' !! target = Some n)
    by (intros n; apply Hkeep).
  assert (Htarget_new : files w !! target = None → fs' !! target = None).
  { intros Hn. destruct (Hnew target Hn) as [? | (_ & q & Hq & Hp & Heq)]; [done|].
    exfalso. by apply (Hshort q Hq Hp). }
  (* the tree after [touch] *)
  assert (Htouch_keep : ∀ q n, fs' !! q = Some n → fs1 !! q = Some n).
  { intros q n Hq. subst fs1. unfold Fs.touch.
    destruct (Fs.node_at fs' target) eqn:Hat; [done|].
    rewrite lookup_insert_ne; [done|]. intros <-.
    destruct target; [done|]. cbn in Hat. congruence. }
  assert (Hafter_dirs : ∀ q, q `prefix_of` removelast target →
                             Fs.node_at fs1 q = Some Dir).
  { intros q Hp. destruct q as [|x q]; [done|]. cbn [Fs.node_at].
    apply Htouch_keep, Hdirs; done. }
  assert (Hexists : is_Some (Fs.node_at fs1 target)).
  { subst fs1. unfold Fs.touch.
    destruct (Fs.node_at fs' target) eqn:Hat; [by rewrite Hat|].
    destruct target; [done|]. cbn [Fs.node_at]. rewrite lookup_insert_eq. eauto. }
  assert (Hlinks : ∀ k tgt, fs1 !! k = Some (Link tgt) ↔ files w !! k = Some (Link tgt)).
  { intros k tgt. split.
    - intros Hk. destruct (files w !! k) as [n|] eqn:Hw.
      + rewrite (Htouch_keep k n (Hkeep k n Hw)) in Hk. done.
      + exfalso. destruct (Hnew k Hw) as [Hn | (Hd & _)].
        * subst fs1. unfold Fs.touch in Hk.
          destruct (Fs.node_at fs' target); [congruence|].
          destruct (decide (k = target)) as [->|Hne].
          -- rewrite lookup_insert_eq in Hk. done.
          -- rewrite lookup_insert_ne in Hk by done. congruence.
        * rewrite (Htouch_keep k Dir Hd) in Hk. done.
    - intros Hk. by apply Htouch_keep, Hkeep. }
  exists (set_files fs1 w).
  assert (Hfirst : FileManager.carrot path self w
                   = (Return (str (absolute target)), self, set_files fs1 w)).
  { unfold FileManager.carrot. by rewrite Hres, Hrun. }
  split; [exact Hfirst|]. cbn [files set_files].
  split; [exact Hafter_dirs|].
  split.
  { intros Hnone. destruct target as [|x t]; [done|]. cbn [Fs.node_at] in *.
    subst fs1. unfold Fs.touch. cbn [Fs.node_at].
    rewrite (Htarget_new Hnone). apply lookup_insert_eq. }
  split.
  { intros data Hdata. destruct target as [|x t]; [done|]. cbn [Fs.node_at] in *.
    by apply Htouch_keep, Hkeep. }
  split.
  { intros q n Hq. by apply Htouch_keep, Hkeep. }
  unfold FileManager.carrot. cbn [files getcwd set_files].
  unfold Fs.resolve. rewrite (realpath_links_agree (files w) fs1 Hlinks).
  fold (Fs.resolve (files w) (getcwd w) (joinpath (FileManager.cwd self) (Path path))).
  rewrite Hres.
  rewrite mkdir_parents_idle.
  - unfold Fs.touch. destruct Hexists as [n ->]. reflexivity.
  - intros q Hq Hp. cbn [app]. specialize (Hafter_dirs q Hp).
    by destruct q.
Qed.

(** [a] and [a/b] are missing under [/home/u]: [carrot a/b/c.txt] makes
    them and the empty file, and a second [carrot] changes nothing. *)
Lemma carrot_creates_and_keeps_witness :
  ∃ w1,
    FileManager.carrot "a/b/c.txt" Demo.fm0 Demo.w0
    = (Return "/home/u/a/b/c.txt", Demo.fm0, w1)
    ∧ files w1 !! ["home"; "u"; "a"; "b"] = Some Dir
    ∧ files w1 !! ["home"; "u"; "a"; "b"; "c.txt"] = Some (File "")
    ∧ FileManager.carrot "a/b/c.txt" Demo.fm0 w1
      = (Return "/home/u/a/b/c.txt", Demo.fm0, w1).
Proof.
  destruct (carrot_creates_and_keeps "a/b/c.txt" Demo.fm0 Demo.w0
              ["home"; "u"; "a"; "b"; "c.txt"] eq_refl)
    as (w1 & Hfirst & Hdirs & Hnew & _ & _ & Hagain).
  - intros q [k Hk].
    destruct q as [|x1 [|x2 [|x3 [|x4 [|x5 q]]]]]; simplify_eq/=;
      vm_compute; auto.
  - exists w1. split; [exact Hfirst|]. split; [|split].
    + apply (Hdirs ["home"; "u"; "a"; "b"]). reflexivity.
    + apply (Hnew eq_refl).
    + exact Hagain.
Defined.

(** [notes.txt] exists: [carrot] leaves its contents alone. *)
Example carrot_keeps_contents :
  (FileManager.carrot "notes.txt" Demo.fm0 Demo.w0).1.1 = Return "/home/u/notes.txt"
  ∧ files (FileManager.carrot "notes.txt" Demo.fm0 Demo.w0).2
      !! ["home"; "u"; "notes.txt"] = Some (File "hello").
Proof. vm_compute. split; reflexivity. Qed.

(** A regular file in the way: [carrot] raises and creates nothing. *)
Example carrot_under_a_file :
  FileManager.carrot "notes.txt/x/y" Demo.fm0 Demo.w0
  = (Raise (Exn NotADirectoryError "[Errno 20] Not a directory: '/home/u/notes.txt/x'"),
     Demo.fm0, Demo.w0).
Proof. vm_compute. reflexivity. Qed.

(** ** Resolved paths on a well-formed tree *)

Lemma prefix_snoc_inv {A} (q l : list A) x :
  q `prefix_of` l ++ [x] → q `prefix_of` l ∨ q = l ++ [x].
Proof.
  intros [k Hk]. destruct k as [|y k] using rev_ind.
  - right. by rewrite app_nil_r in Hk.
  - left. rewrite app_assoc in Hk. apply app_inj_tail in Hk as [-> _].
    by exists k.
Qed.

Lemma prefix_removelast {A} (q l : list A) :
  q `prefix_of` removelast l → q `prefix_of` l.
Proof.
  intros Hq. destruct l as [|x l] using rev_ind; [done|].
  rewrite removelast_last in Hq. by apply prefix_app_r.
Qed.

Lemma settled_removelast fs t : Fs.settled fs t → Fs.settled fs (removelast t).
Proof.
  intros [Hdots Hlinks]. split.
  - intros Hin. apply Hdots.
    destruct t as [|x t] using rev_ind; [done|].
    rewrite removelast_last in Hin. apply elem_of_app. by left.
  - intros q tgt Hq. apply Hlinks. by apply prefix_removelast.
Qed.

Lemma settled_snoc fs t c :
  Fs.settled fs t → c ≠ ".." → (∀ tgt, fs !! (t ++ [c]) ≠ Some (Link tgt)) →
  Fs.settled fs (t ++ [c]).
Proof.
  intros [Hdots Hlinks] Hc Hnew. split.
  - intros Hin. apply elem_of_app in Hin as [Hin | Hin]; [done|].
    apply list_elem_of_singleton in Hin. done.
  - intros q tgt Hq. apply prefix_snoc_inv in Hq as [Hq | ->]; [by apply Hlinks|].
    apply Hnew.
Qed.

(** What [realpath] returns is settled. *)
Lemma realpath_settled strict budget fs : ∀ cur rest t,
  fs !! [] = None → Fs.settled fs cur →
  Fs.realpath strict budget fs cur rest = Return t → Fs.settled fs t.
Proof.
  intros cur rest t Hroot. revert cur rest.
  induction budget as [|b IHb]; intros cur rest; revert cur;
    induction rest as [|c rest IHr]; intros cur Hcur;
    rewrite realpath_unfold; try (by intros [= <-]);
    (destruct (decide (c = "..")); [by apply IHr, settled_removelast|]);
    destruct (fs !! (cur ++ [c])) as [[data|tgt|]|] eqn:Hc;
    repeat match goal with
           | |- context [if ?b then Raise _ else _] => destruct b
           end;
    try discriminate;
    try (apply IHr, settled_snoc; [done|done|intros ?; congruence]).
  apply IHb. destruct (is_absolute (Path tgt)); [|done].
  split; [by apply not_elem_of_nil|].
  intros q tgt' Hq. apply prefix_nil_inv in Hq as ->. congruence.
Qed.

Lemma node_at_nonempty fs p : p ≠ [] → Fs.node_at fs p = fs !! p.
Proof. by destruct p. Qed.

Lemma app_nonempty {A} (p q : list A) : p ≠ [] → p ++ q ≠ [].
Proof. by destruct p. Qed.

Lemma tree_ok_below_missing fs p :
  Fs.tree_ok fs → p ≠ [] → fs !! p = None → ∀ q, fs !! (p ++ q) = None.
Proof.
  intros [Hroot Hok] Hp Hnone q.
  induction q as [|x q IH] using rev_ind; [by rewrite app_nil_r|].
  destruct (fs !! (p ++ q ++ [x])) as [n|] eqn:Hn; [|done].
  apply Hok in Hn. rewrite app_assoc, removelast_last in Hn.
  rewrite node_at_nonempty in Hn by (by apply app_nonempty). congruence.
Qed.

Lemma tree_ok_below_leaf fs p n :
  Fs.tree_ok fs → fs !! p = Some n → n ≠ Dir → ∀ q, q ≠ [] → fs !! (p ++ q) = None.
Proof.
  intros Hok Hp Hn q.
  induction q as [|x q IH] using rev_ind; [done|]. intros _.
  destruct (fs !! (p ++ q ++ [x])) as [m|] eqn:Hm; [|done].
  destruct Hok as [Hroot Hok]. apply Hok in Hm.
  rewrite app_assoc, removelast_last in Hm.
  assert (Hne : p ≠ []) by (intros ->; congruence).
  rewrite node_at_nonempty in Hm by (by apply app_nonempty).
  destruct q as [|y q].
  - rewrite app_nil_r in Hm. congruence.
  - rewrite IH in Hm by done. done.
Qed.

(** On a well-formed tree the operating system's look-up of a settled path
    is the look-up of its entry: this is what [exists()] and [is_dir()]
    see on a resolved target. *)
Lemma strict_walk_settled fs budget : ∀ rest cur,
  Fs.tree_ok fs → Fs.settled fs (cur ++ rest) →
  (rest ≠ [] → Fs.node_at fs cur = Some Dir) →
  match Fs.realpath true budget fs cur rest with
  | Return t => t = cur ++ rest
  | Raise _ => Fs.node_at fs (cur ++ rest) = None
  end.
Proof.
  induction rest as [|c rest IH]; intros cur Hok Hset Hcur.
  - rewrite realpath_unfold. by rewrite app_nil_r.
  - rewrite realpath_unfold.
    destruct Hset as [Hdots Hlinks].
    assert (Hc : c ≠ "..").
    { intros ->. apply Hdots, elem_of_app. right. apply list_elem_of_here. }
    rewrite decide_False by done.
    assert (Hat : Fs.node_at fs (cur ++ c :: rest) = fs !! (cur ++ c :: rest)).
    { apply node_at_nonempty. by destruct cur. }
    assert (Hsplit : cur ++ c :: rest = (cur ++ [c]) ++ rest)
      by (by rewrite <- app_assoc).
    destruct (fs !! (cur ++ [c])) as [[data|tgt|]|] eqn:Hn.
    + destruct rest as [|c' rest'].
      * rewrite bool_decide_eq_true_2 by done. cbn [negb andb].
        by rewrite realpath_unfold.
      * rewrite bool_decide_eq_false_2 by done. cbn [negb andb Fs.is_dir_node].
        rewrite Hat, Hsplit.
        by apply (tree_ok_below_leaf fs (cur ++ [c]) (File data)).
    + exfalso. apply (Hlinks (cur ++ [c]) tgt); [|done].
      rewrite Hsplit. by apply prefix_app_r.
    + cbn [Fs.is_dir_node negb andb]. rewrite andb_false_r.
      rewrite Hsplit. apply IH; [done| |].
      * by rewrite <- Hsplit.
      * intros _. rewrite node_at_nonempty by (by destruct cur). done.
    + rewrite Hat, Hsplit. apply tree_ok_below_missing; [done| |done].
      by destruct cur.
Qed.

Lemma stat_resolved fs cwd t :
  Fs.tree_ok fs → Fs.settled fs t →
  Fs.stat fs cwd (absolute t) = Fs.node_at fs t.
Proof.
  intros Hok Hset. unfold Fs.stat, Fs.from_root. cbn [is_absolute absolute root parts].
  pose proof (strict_walk_settled fs Fs.MAXSYMLINKS t [] Hok Hset (λ _, eq_refl)) as H.
  cbn [app] in H. destruct (Fs.realpath true Fs.MAXSYMLINKS fs [] t); by subst.
Qed.

(** So on a well-formed tree [hop] and [delete] see the resolved target as
    [exists()] and [is_dir()] report it. *)
Lemma stat_resolve fs cwd p t :
  Fs.tree_ok fs → Fs.resolve fs cwd p = Return t →
  Fs.stat fs cwd (absolute t) = Fs.node_at fs t.
Proof.
  intros Hok Hres. apply stat_resolved; [done|].
  eapply realpath_settled; [apply Hok| |exact Hres].
  split; [apply not_elem_of_nil|].
  intros q tgt Hq. apply prefix_nil_inv in Hq as ->. destruct Hok as [-> _]. done.
Qed.

(** ** The operations keep the tree well-formed *)

Lemma insert_tree_ok fs p n :
  Fs.tree_ok fs → p ≠ [] → fs !! p = None →
  Fs.node_at fs (removelast p) = Some Dir → Fs.tree_ok (<[p := n]> fs).
Proof.
  intros [Hroot Hok] Hp Hnone Hparent.
  assert (Hkeep : ∀ q, Fs.node_at fs q = Some Dir →
                       Fs.node_at (<[p := n]> fs) q = Some Dir).
  { intros q Hq. destruct q as [|x q]; [done|]. cbn [Fs.node_at] in *.
    rewrite lookup_insert_ne; [done|]. intros ->. congruence. }
  split.
  - by rewrite lookup_insert_ne.
  - intros q m Hq. apply Hkeep.
    destruct (decide (p = q)) as [<-|Hne]; [done|].
    rewrite lookup_insert_ne in Hq by done. by eapply Hok.
Qed.

Lemma mkdir_parents_tree_ok rest : ∀ fs cur fs',
  Fs.tree_ok fs → Fs.node_at fs cur = Some Dir →
  Fs.mkdir_parents fs cur rest = Return fs' →
  Fs.tree_ok fs' ∧ Fs.node_at fs' (cur ++ rest) = Some Dir.
Proof.
  induction rest as [|c rest IH]; intros fs cur fs' Hok Hcur.
  - intros [= <-]. by rewrite app_nil_r.
  - cbn [Fs.mkdir_parents].
    replace (cur ++ c :: rest) with ((cur ++ [c]) ++ rest) by (by rewrite <- app_assoc).
    assert (Hne : cur ++ [c] ≠ []) by (by destruct cur).
    destruct (fs !! (cur ++ [c])) as [[data|tgt|]|] eqn:Hc; try done.
    + apply IH; [done|]. by rewrite node_at_nonempty.
    + apply IH.
      * apply insert_tree_ok; [done|done|done|]. by rewrite removelast_last.
      * rewrite node_at_nonempty by done. apply lookup_insert_eq.
Qed.

Lemma touch_tree_ok fs t :
  Fs.tree_ok fs → Fs.node_at fs (removelast t) = Some Dir → Fs.tree_ok (Fs.touch fs t).
Proof.
  intros Hok Hparent. unfold Fs.touch.
  destruct (Fs.node_at fs t) eqn:Ht; [done|].
  destruct t as [|x t]; [done|]. by apply insert_tree_ok.
Qed.

Lemma rmtree_tree_ok fs t : Fs.tree_ok fs → Fs.tree_ok (Fs.rmtree fs t).
Proof.
  intros [Hroot Hok]. split.
  - destruct (decide (t `prefix_of` [])); [by apply rmtree_inside|].
    by rewrite rmtree_outside.
  - intros q n Hq.
    destruct (decide (t `prefix_of` q)) as [Hin|Hout].
    { by rewrite rmtree_inside in Hq. }
    rewrite rmtree_outside in Hq by done. apply Hok in Hq.
    destruct (removelast q) as [|x r] eqn:Hr; [done|]. cbn [Fs.node_at] in *.
    rewrite rmtree_outside; [done|]. intros Hp. apply Hout.
    rewrite <- Hr in Hp. by apply prefix_removelast.
Qed.

Lemma unlink_tree_ok fs t n fs' :
  Fs.tree_ok fs → Fs.node_at fs t = Some n → n ≠ Dir →
  Fs.unlink fs t = Return fs' → Fs.tree_ok fs'.
Proof.
  intros [Hroot Hok] Ht Hn. unfold Fs.unlink.
  destruct (fs !! t) eqn:Hlook; [|done]. intros [= <-]. split.
  - destruct (decide (t = [])) as [->|Hne]; [by rewrite lookup_delete_eq|].
    by rewrite lookup_delete_ne.
  - intros q m Hq.
    destruct (decide (t = q)) as [<-|Hne]; [by rewrite lookup_delete_eq in Hq|].
    rewrite lookup_delete_ne in Hq by done. apply Hok in Hq.
    destruct (removelast q) as [|x r] eqn:Hr; [done|]. cbn [Fs.node_at] in *.
    rewrite lookup_delete_ne; [done|]. intros ->.
    cbn [Fs.node_at] in Ht. congruence.
Qed.

(** [dig], [carrot] and [delete] leave a well-formed tree well-formed. *)
Lemma operations_keep_tree_ok path self w :
  Fs.tree_ok (files w) →
  Fs.tree_ok (files (FileManager.dig path self w).2)
  ∧ Fs.tree_ok (files (FileManager.carrot path self w).2)
  ∧ Fs.tree_ok (files (FileManager.delete path self w).2).
Proof.
  intros Hok. unfold FileManager.dig, FileManager.carrot, FileManager.delete.
  destruct (Fs.resolve _ _ _) as [target|e]; [|done].
  split; [|split].
  - destruct (Fs.mkdir_parents (files w) [] target) as [fs'|e] eqn:Hmk; [|done].
    by apply (mkdir_parents_tree_ok target (files w) [] fs').
  - destruct (Fs.mkdir_parents (files w) [] (removelast target)) as [fs'|e] eqn:Hmk;
      [|done].
    destruct (mkdir_parents_tree_ok (removelast target) (files w) [] fs' Hok eq_refl Hmk)
      as [Hok' Hparent].
    by apply touch_tree_ok.
  - destruct (Fs.node_at (files w) target) as [n|] eqn:Ht.
    + destruct n; cbn [files set_files];
        try (destruct (Fs.unlink (files w) target) as [fs'|e] eqn:Hun; [|done];
             by eapply unlink_tree_ok);
        by apply rmtree_tree_ok.
    + unfold Fs.unlink. destruct target; [done|].
      cbn [Fs.node_at] in Ht. by rewrite Ht.
Qed.

Example demo_tree_ok : Fs.tree_ok Demo.tree.
Proof.
  split; [reflexivity|]. intros p n Hp.
  apply elem_of_list_to_map_2 in Hp.
  repeat (apply elem_of_cons in Hp as [Heq|Hp];
          [simplify_eq; vm_compute; reflexivity|]).
  by apply not_elem_of_nil in Hp.
Qed.

(** ** More on the state store *)

Lemma find_stray_key members :
  List.find (λ kv : string * json, negb (bool_decide (kv.1 = "last_spot"))) members = None
  ↔ Forall (λ kv : string * json, kv.1 = "last_spot") members.
Proof.
  induction members as [|kv members IH]; cbn.
  - split; [constructor|done].
  - destruct (bool_decide_reflect (kv.1 = "last_spot")) as [Hk|Hk]; cbn.
    + rewrite IH. split; [by constructor|by inversion 1].
    + split; [done|]. by inversion 1.
Qed.

(** [State] built from keyword arguments: it returns exactly on an object
    whose members all are [last_spot], with the value of the last one. *)
Lemma State_kwargs_returns data st :
  State_kwargs data = Return st
  ↔ ∃ members x, data = JObj (members ++ [("last_spot", x)])
                 ∧ Forall (λ kv : string * json, kv.1 = "last_spot") members
                 ∧ st = MkState x.
Proof.
  split.
  - destruct data as [| | | |items|members]; try done. cbn.
    destruct (List.find _ members) as [kv|] eqn:Hfind; [done|].
    apply find_stray_key in Hfind.
    destruct members as [|kv members] using rev_ind; [done|].
    rewrite rev_app_distr. cbn. intros [= <-].
    apply Forall_app in Hfind as [Hall Hlast].
    rewrite Forall_singleton in Hlast. destruct kv as [k x]. cbn in *. subst k.
    by exists members, x.
  - intros (members & x & -> & Hall & ->). cbn.
    assert (Hfind : List.find
                      (λ kv : string * json, negb (bool_decide (kv.1 = "last_spot")))
                      (members ++ [("last_spot", x)]) = None).
    { apply find_stray_key, Forall_app. split; [done|]. by constructor. }
    rewrite Hfind, rev_app_distr. done.
Qed.

Lemma record_shaped_snoc v :
  record_shaped v
  ↔ ∃ members x, v = JObj (members ++ [("last_spot", x)])
                 ∧ Forall (λ kv : string * json, kv.1 = "last_spot") members.
Proof.
  split.
  - intros (members & -> & Hne & Hall).
    destruct members as [|[k x] members] using rev_ind; [done|].
    apply Forall_app in Hall as [Hall Hlast].
    rewrite Forall_singleton in Hlast. cbn in Hlast. subst k.
    by exists members, x.
  - intros (members & x & -> & Hall). exists (members ++ [("last_spot", x)]).
    split; [done|]. split; [by destruct members|].
    apply Forall_app. split; [done|]. by constructor.
Qed.



(** X2.  Writes overwrite unconditionally: after two writes the
    configuration directory is what the second write alone leaves, [read]
    returns the second state, and no temporary file is left. *)
Theorem Storage_last_writer_wins (w : world) (s1 s2 : State) :
  let self := Storage.init w in
  let w2 := Storage.write self s2 (Storage.write self s1 w) in
  config w2 = config (Storage.write self s2 w)
  ∧ Storage.read self w2 = Return s2
  ∧ config w2 !! name (with_suffix (Storage.path self) ".tmp") = None.
Proof.
  intros self w2.
  assert (Hne : name (with_suffix (Storage.path self) ".tmp") ≠ name (Storage.path self))
    by (subst self; by rewrite tmp_name, record_name).
  assert (Hcfg : config w2 = config (Storage.write self s2 w)).
  { subst w2. rewrite !write_config by done.
    apply map_eq; intros i.
    destruct (decide (i = name (with_suffix (Storage.path self) ".tmp"))) as [->|Hi].
    - by rewrite !lookup_delete_eq.
    - rewrite !lookup_delete_ne by done.
      destruct (decide (i = name (Storage.path self))) as [->|Hi'].
      + by rewrite !lookup_insert_eq.
      + repeat first [rewrite lookup_insert_ne by done
                     |rewrite lookup_delete_ne by done].
        done. }
  split; [exact Hcfg|]. split.
  - transitivity (Storage.read self (Storage.write self s2 w)).
    + by apply read_ext.
    + apply read_after_write.
  - rewrite Hcfg, write_config by done. apply lookup_delete_eq.
Qed.

(** ** More on hop *)

Lemma settled_plain fs t : Fs.settled fs t → Fs.plain fs [] t.
Proof.
  intros [Hdots Hlinks] k c Hk. split.
  - intros ->. apply Hdots. by eapply list_elem_of_lookup_2.
  - intros tgt. apply Hlinks, prefix_take.
Qed.

(** A settled path resolves to itself. *)
Lemma realpath_settled_id fs budget t :
  Fs.settled fs t → Fs.realpath false budget fs [] t = Return t.
Proof.
  intros Hset. rewrite <- (app_nil_r t) at 1.
  rewrite realpath_plain by (by apply settled_plain).
  by rewrite realpath_unfold.
Qed.

Lemma resolve_settled fs cwd p t :
  fs !! [] = None → Fs.resolve fs cwd p = Return t → Fs.settled fs t.
Proof.
  intros Hroot. apply realpath_settled; [done|].
  split; [apply not_elem_of_nil|].
  intros q tgt Hq. apply prefix_nil_inv in Hq as ->. by rewrite Hroot.
Qed.

Lemma str_absolute_nonempty t : ∃ c s, str (absolute t) = String c s.
Proof. by exists "/"%char, (join t). Qed.

(** X3.  Hopping to the path [hop] has just returned is a no-op: [hop]
    returns the same path again and leaves the manager and the world as the
    first [hop] left them. *)
Theorem hop_again_is_noop (path : option string) (self self' : FileManager.t)
    (w w' : world) (spot : string) :
  FileManager.storage self = Storage.init w →
  Forall clean (parts (FileManager.cwd self)) →
  files w !! [] = None →
  FileManager.hop path self w = (Return spot, self', w') →
  FileManager.hop (Some spot) self' w' = (Return spot, self', w').
Proof.
  intros Hst Hcwd Hroot Hhop. unfold FileManager.hop in Hhop.
  destruct (Fs.resolve (files w) (getcwd w) (FileManager.hop_path path self w))
    as [target|e] eqn:Hres; [|done].
  destruct (Fs.node_at (files w) target) as [[data|tgt|]|] eqn:Hdir; try done.
  injection Hhop as <- <- <-.
  assert (Hclean : Forall clean target).
  { eapply resolve_clean; [|exact Hres]. by apply hop_path_clean. }
  assert (Hset : Fs.settled (files w) target) by (by eapply resolve_settled).
  cbn [FileManager.cwd FileManager.set_cwd].
  unfold FileManager.hop, FileManager.hop_path.
  destruct (str_absolute_nonempty target) as (c & s & Hstr).
  rewrite Hstr, <- Hstr. rewrite Path_str_absolute by done.
  cbn [is_absolute absolute root negb].
  unfold FileManager._persist, Storage.write.
  cbn [files getcwd set_config FileManager.cwd FileManager.storage FileManager.set_cwd].
  unfold Fs.resolve, Fs.from_root. cbn [is_absolute absolute root parts].
  rewrite realpath_settled_id by done. rewrite Hdir.
  cbn [FileManager.cwd FileManager.set_cwd FileManager.storage FileManager.state config].
  f_equal. unfold set_config. cbn [files config getcwd home environ system
    user_config_dir stdout stderr launched]. f_equal.
  rewrite Hst.
  assert (Hne : name (with_suffix (Storage.path (Storage.init w)) ".tmp")
                ≠ name (Storage.path (Storage.init w)))
    by (by rewrite tmp_name, record_name).
  rewrite !run_write_script by done.
  apply map_eq; intros i.
  destruct (decide (i = name (with_suffix (Storage.path (Storage.init w)) ".tmp")))
    as [->|Hi].
  - by rewrite !lookup_delete_eq.
  - rewrite !lookup_delete_ne by done.
    destruct (decide (i = name (Storage.path (Storage.init w)))) as [->|Hi'].
    + by rewrite !lookup_insert_eq.
    + repeat first [rewrite lookup_insert_ne by done
                   |rewrite lookup_delete_ne by done].
      done.
Qed.

Lemma hop_again_is_noop_witness :
  ∃ self' w',
    FileManager.hop (Some "lnk") Demo.fm0 Demo.w0 = (Return "/home/u/docs", self', w')
    ∧ FileManager.hop (Some "/home/u/docs") self' w' = (Return "/home/u/docs", self', w').
Proof.
  destruct (FileManager.hop (Some "lnk") Demo.fm0 Demo.w0) as [[r self'] w'] eqn:Hhop.
  assert (Hr : r = Return "/home/u/docs").
  { apply (f_equal (λ x, x.1.1)) in Hhop. cbn [fst] in Hhop. rewrite <- Hhop.
    vm_compute. reflexivity. }
  subst r. exists self', w'. split; [reflexivity|].
  apply (hop_again_is_noop (Some "lnk") Demo.fm0 self' Demo.w0 w').
  - reflexivity.
  - apply Path_parts_clean.
  - reflexivity.
  - exact Hhop.
Defined.

Lemma tree_ok_parent fs t n :
  Fs.tree_ok fs → Fs.node_at fs t = Some n → Fs.node_at fs (removelast t) = Some Dir.
Proof.
  intros [Hroot Hok] Ht. destruct t as [|x t]; [done|]. by eapply Hok.
Qed.

(** X4.  On a well-formed tree [hop("..")] from an existing spot cannot
    fail: it moves to the parent directory (and stays at the root when the
    spot is the root). *)
Theorem hop_parent_succeeds (self : FileManager.t) (w : world) (t : list string)
    (n : node) :
  Fs.tree_ok (files w) →
  FileManager.cwd self = absolute t →
  Fs.settled (files w) t →
  Fs.node_at (files w) t = Some n →
  ∃ w', FileManager.hop (Some "..") self w
        = (Return (str (absolute (removelast t))),
           FileManager.set_cwd (absolute (removelast t)) self, w')
        ∧ files w' = files w.
Proof.
  intros Hok Hcwd Hset Ht.
  unfold FileManager.hop, FileManager.hop_path. rewrite Hcwd.
  change (Path "..") with (MkPath Rel [".."]).
  cbn [is_absolute root negb joinpath absolute parts].
  unfold Fs.resolve, Fs.from_root. cbn [is_absolute root parts].
  rewrite realpath_plain by (by apply settled_plain). cbn [app].
  rewrite realpath_unfold. rewrite decide_True by done.
  rewrite realpath_unfold.
  rewrite (tree_ok_parent _ _ _ Hok Ht).
  eexists. split; reflexivity.
Qed.

Lemma hop_parent_succeeds_witness :
  ∃ w', FileManager.hop (Some "..") Demo.fm0 Demo.w0
        = (Return "/home", FileManager.set_cwd (absolute ["home"]) Demo.fm0, w').
Proof.
  assert (Hok : Fs.tree_ok (files Demo.w0)) by apply demo_tree_ok.
  destruct (hop_parent_succeeds Demo.fm0 Demo.w0 ["home"; "u"] Dir Hok eq_refl)
    as (w' & Hhop & _).
  - split.
    + intros Hin. apply elem_of_cons in Hin as [Hin|Hin]; [done|].
      apply elem_of_cons in Hin as [Hin|Hin]; [done|]. by apply not_elem_of_nil in Hin.
    + intros q tgt [k Hk].
      destruct q as [|x1 [|x2 [|x3 q]]]; simplify_eq/=; vm_compute; done.
  - reflexivity.
  - by exists w'.
Defined.

(** ** hop without a path *)

(** X5.  [hop()] and [hop("")] are the same call: an empty path means
    the home directory, not the current one.  When the home directory is
    given by an absolute path, the call does not depend on where the
    manager is: it returns, and leaves behind, the same from every
    directory; and what it returns is the resolved home directory, which
    then exists and is a directory. *)
Theorem hop_without_path_goes_home (self : FileManager.t) (w : world)
    (elsewhere : ppath) :
  is_absolute (Path (home w)) = true →
  FileManager.hop (Some "") self w = FileManager.hop None self w
  ∧ (FileManager.hop None (FileManager.set_cwd elsewhere self) w).1.1
    = (FileManager.hop None self w).1.1
  ∧ (FileManager.hop None (FileManager.set_cwd elsewhere self) w).2
    = (FileManager.hop None self w).2
  ∧ ∀ spot, (FileManager.hop None self w).1.1 = Return spot →
      ∃ target,
        Fs.resolve (files w) (getcwd w) (Path (home w)) = Return target
        ∧ Fs.node_at (files w) target = Some Dir
        ∧ spot = str (absolute target).
Proof.
  intros Habs. split; [done|].
  unfold FileManager.hop, FileManager.hop_path. rewrite Habs. cbn [negb].
  destruct (Fs.resolve (files w) (getcwd w) (Path (home w))) as [target|e];
    [|cbn [fst snd]; split; [done|]; split; [done|]; intros spot Hs; discriminate Hs].
  destruct (Fs.node_at (files w) target) as [[data|tgt|]|] eqn:Hn; cbn [fst snd];
    try (split; [done|]; split; [done|]; intros spot Hs; discriminate Hs).
  split; [done|]. split; [done|]. intros spot [= <-]. by exists target.
Qed.

(** From [/home/u/docs] and from [/home/u], home is [/home/u]. *)
Lemma hop_without_path_goes_home_witness :
  (FileManager.hop None (FileManager.set_cwd (Path "/home/u/docs") Demo.fm0)
     Demo.w0).1.1
  = Return "/home/u".
Proof.
  destruct (hop_without_path_goes_home Demo.fm0 Demo.w0 (Path "/home/u/docs") eq_refl)
    as (_ & -> & _ & _).
  vm_compute. reflexivity.
Defined.

(** ** dig *)

(** When [mkdir -p] raises, an existing entry that is no directory lies on
    the chain: [FileExistsError] when it is the last directory of the
    chain, [NotADirectoryError] when it lies above it. *)
Lemma mkdir_parents_raises rest : ∀ fs cur e,
  Fs.mkdir_parents fs cur rest = Raise e →
  ∃ q n, q ≠ [] ∧ q `prefix_of` rest ∧ fs !! (cur ++ q) = Some n ∧ n ≠ Dir
         ∧ kind e = (if decide (q = rest) then FileExistsError
                     else NotADirectoryError).
Proof.
  induction rest as [|c rest IH]; intros fs cur e; [done|].
  cbn [Fs.mkdir_parents].
  destruct (fs !! (cur ++ [c])) as [n|] eqn:Hc.
  - destruct (decide (n = Dir)) as [->|Hn].
    + intros Hrun. destruct (IH _ _ _ Hrun) as (q & m & Hq & Hp & Hm & Hd & Hk).
      exists (c :: q), m. split; [done|]. split; [by apply prefix_cons|].
      rewrite <- app_assoc in Hm. split; [done|]. split; [done|].
      rewrite Hk. destruct (decide (q = rest)) as [->|Hne].
      * by rewrite decide_True.
      * rewrite decide_False; [done|]. by intros [= ?].
    + intros Hrun. exists [c], n. split; [done|].
      split; [apply prefix_cons, prefix_nil|]. split; [done|]. split; [done|].
      assert (He : e = match rest with
                       | [] => Fs.eexist (cur ++ [c])
                       | _ => Fs.enotdir (cur ++ c :: rest)
                       end) by (destruct n; congruence).
      subst e. destruct rest.
      * by rewrite decide_True.
      * by rewrite decide_False.
  - intros Hrun. destruct (IH _ _ _ Hrun) as (q & m & Hq & Hp & Hm & Hd & Hk).
    exists (c :: q), m. split; [done|]. split; [by apply prefix_cons|].
    rewrite <- app_assoc in Hm.
    rewrite lookup_insert_ne in Hm by (rewrite app_assoc; by apply snoc_app_ne).
    split; [done|]. split; [done|].
    rewrite Hk. destruct (decide (q = rest)) as [->|Hne].
    + by rewrite decide_True.
    + rewrite decide_False; [done|]. by intros [= ?].
Qed.

(** An entry on the chain that is no directory makes [mkdir -p] raise. *)
Lemma mkdir_parents_blocked rest : ∀ fs cur q m,
  q ≠ [] → q `prefix_of` rest → fs !! (cur ++ q) = Some m → m ≠ Dir →
  ∃ e, Fs.mkdir_parents fs cur rest = Raise e.
Proof.
  induction rest as [|c rest IH]; intros fs cur q m Hq Hp Hm Hd.
  - apply prefix_nil_inv in Hp. done.
  - destruct (prefix_cons_nonempty q c rest Hq Hp) as (q2 & -> & Hp2).
    cbn [Fs.mkdir_parents].
    destruct q2 as [|x q2].
    + rewrite Hm. destruct m; try done; eauto.
    + destruct (fs !! (cur ++ [c])) as [[d|t|]|] eqn:Hc; eauto.
      * apply (IH _ _ (x :: q2) m); try done. by rewrite <- app_assoc.
      * apply (IH _ _ (x :: q2) m); try done.
        rewrite lookup_insert_ne by (by apply snoc_app_ne).
        by rewrite <- app_assoc.
Qed.

(** X6.  [dig] raises exactly when an entry that is no directory lies at
    the resolved target or above it; the exception then is
    [FileExistsError] for the target itself and [NotADirectoryError] for an
    entry above it. *)
Theorem dig_raises_exactly_when_blocked (path : string) (self : FileManager.t)
    (w : world) (target : list string) :
  Fs.resolve (files w) (getcwd w) (joinpath (FileManager.cwd self) (Path path))
  = Return target →
  ((∃ e, (FileManager.dig path self w).1.1 = Raise e)
   ↔ ∃ q n, q `prefix_of` target ∧ Fs.node_at (files w) q = Some n ∧ n ≠ Dir)
  ∧ (∀ e, (FileManager.dig path self w).1.1 = Raise e →
          (kind e = FileExistsError
           ∧ ∃ n, Fs.node_at (files w) target = Some n ∧ n ≠ Dir)
          ∨ (kind e = NotADirectoryError
             ∧ ∃ q n, q `prefix_of` target ∧ q ≠ target
                      ∧ Fs.node_at (files w) q = Some n ∧ n ≠ Dir)).
Proof.
  intros Hres. unfold FileManager.dig. rewrite Hres.
  destruct (Fs.mkdir_parents (files w) [] target) as [fs'|e] eqn:Hrun;
    cbn [fst].
  - split; [|by intros e [=]]. split; [by intros [e [=]]|].
    intros (q & n & Hq & Hn & Hd). exfalso.
    destruct q as [|x q]; [cbn in Hn; congruence|].
    destruct (mkdir_parents_blocked target (files w) [] (x :: q) n) as [e He];
      try done.
    congruence.
  - destruct (mkdir_parents_raises _ _ _ _ Hrun) as (q & n & Hq & Hp & Hn & Hd & Hk).
    cbn [app] in Hn.
    assert (Hat : Fs.node_at (files w) q = Some n) by (by destruct q).
    split.
    + split; [|eauto]. intros _. eauto.
    + intros e' [= <-]. destruct (decide (q = target)) as [->|Hne].
      * left. eauto.
      * right. split; [done|]. by exists q, n.
Qed.

Lemma dig_raises_exactly_when_blocked_witness :
  ∃ e, (FileManager.dig "notes.txt/sub" Demo.fm0 Demo.w0).1.1 = Raise e
       ∧ kind e = NotADirectoryError.
Proof.
  destruct (dig_raises_exactly_when_blocked "notes.txt/sub" Demo.fm0 Demo.w0
              ["home"; "u"; "notes.txt"; "sub"] eq_refl) as [Hiff Hkind].
  destruct (proj2 Hiff) as [e He].
  { exists ["home"; "u"; "notes.txt"], (File "hello").
    split; [by exists ["sub"]|]. split; [reflexivity|discriminate]. }
  exists e. split; [exact He|].
  destruct (Hkind e He) as [(_ & n & Hn & Hd)|[Hk _]]; [|exact Hk].
  exfalso. vm_compute in Hn. discriminate.
Defined.

(** X7.  When nothing but directories lies at the resolved target or
    above it, [dig] returns the resolved absolute path; afterwards the
    target and every directory above it exist, every entry that existed is
    what it was, and a second [dig] returns the same path and changes
    nothing. *)
Theorem dig_creates_chain_and_is_idempotent (path : string) (self : FileManager.t)
    (w : world) (target : list string) :
  Fs.resolve (files w) (getcwd w) (joinpath (FileManager.cwd self) (Path path))
  = Return target →
  (∀ q, q `prefix_of` target →
        Fs.node_at (files w) q = None ∨ Fs.node_at (files w) q = Some Dir) →
  ∃ w1,
    FileManager.dig path self w = (Return (str (absolute target)), self, w1)
    ∧ (∀ q, q `prefix_of` target → Fs.node_at (files w1) q = Some Dir)
    ∧ (∀ q n, files w !! q = Some n → files w1 !! q = Some n)
    ∧ (∀ q, files w !! q = None → files w1 !! q = None ∨ q `prefix_of` target)
    ∧ FileManager.dig path self w1 = (Return (str (absolute target)), self, w1).
Proof.
  intros Hres Hfree.
  destruct (mkdir_parents_spec target (files w) [])
    as (fs' & Hrun & Hdirs & Hkeep & Hnew).
  { intros q Hq Hp. destruct (Hfree q Hp) as [Hn | Hd]; destruct q; try done; auto. }
  cbn [app] in Hdirs, Hnew.
  assert (Hafter : ∀ q, q `prefix_of` target → Fs.node_at fs' q = Some Dir).
  { intros q Hp. destruct q as [|x q]; [done|]. by apply Hdirs. }
  assert (Hlinks : ∀ k tgt, fs' !! k = Some (Link tgt) ↔ files w !! k = Some (Link tgt)).
  { intros k tgt. split; [|apply Hkeep].
    intros Hk. destruct (files w !! k) as [n|] eqn:Hw.
    - by rewrite (Hkeep k n Hw) in Hk.
    - destruct (Hnew k Hw) as [Hn | (Hd & _)]; congruence. }
  exists (set_files fs' w).
  split; [unfold FileManager.dig; by rewrite Hres, Hrun|].
  cbn [files set_files]. split; [exact Hafter|]. split; [exact Hkeep|]. split.
  { intros q Hq. destruct (Hnew q Hq) as [Hn | (_ & q' & _ & Hp & ->)]; auto. }
  unfold FileManager.dig. cbn [files getcwd set_files].
  unfold Fs.resolve. rewrite (realpath_links_agree (files w) fs' Hlinks).
  fold (Fs.resolve (files w) (getcwd w) (joinpath (FileManager.cwd self) (Path path))).
  rewrite Hres. rewrite mkdir_parents_idle; [reflexivity|].
  intros q Hq Hp. cbn [app]. specialize (Hafter q Hp). by destruct q.
Qed.

Lemma dig_creates_chain_and_is_idempotent_witness :
  ∃ w1,
    FileManager.dig "burrow/nest" Demo.fm0 Demo.w0
    = (Return "/home/u/burrow/nest", Demo.fm0, w1)
    ∧ files w1 !! ["home"; "u"; "burrow"] = Some Dir
    ∧ FileManager.dig "burrow/nest" Demo.fm0 w1
      = (Return "/home/u/burrow/nest", Demo.fm0, w1).
Proof.
  destruct (dig_creates_chain_and_is_idempotent "burrow/nest" Demo.fm0 Demo.w0
              ["home"; "u"; "burrow"; "nest"] eq_refl)
    as (w1 & Hfirst & Hdirs & _ & _ & Hagain).
  - intros q [k Hk].
    destruct q as [|x1 [|x2 [|x3 [|x4 [|x5 q]]]]]; simplify_eq/=;
      vm_compute; auto.
  - exists w1. split; [exact Hfirst|]. split; [|exact Hagain].
    apply (Hdirs ["home"; "u"; "burrow"]). by exists ["nest"].
Defined.

(** ** carrot and delete on existing entries *)

Lemma tree_ok_above fs : Fs.tree_ok fs → ∀ t n,
  Fs.node_at fs t = Some n → ∀ q, q `prefix_of` t → q ≠ t → Fs.node_at fs q = Some Dir.
Proof.
  intros Hok t. induction t as [|x t IH] using rev_ind; intros n Ht q Hq Hne.
  - apply prefix_nil_inv in Hq. done.
  - apply prefix_snoc_inv in Hq as [Hq|Hq]; [|done].
    pose proof (tree_ok_parent _ _ _ Hok Ht) as Hparent.
    rewrite removelast_last in Hparent.
    destruct (decide (q = t)) as [->|Hqt]; [done|]. by eapply IH.
Qed.

Lemma set_files_id w : set_files (files w) w = w.
Proof. by destruct w. Qed.



(** X9.  [delete] on a path whose resolved target is a regular file
    removes that entry and nothing else; a second [delete] of the same path
    then raises [FileNotFoundError] and changes nothing: a missing target
    is never skipped silently. *)
Theorem delete_file_then_again_raises (path : string) (self : FileManager.t)
    (w : world) (target : list string) (data : string) :
  Fs.resolve (files w) (getcwd w) (joinpath (FileManager.cwd self) (Path path))
  = Return target →
  Fs.node_at (files w) target = Some (File data) →
  ∃ w1,
    FileManager.delete path self w = (Return (), self, w1)
    ∧ files w1 !! target = None
    ∧ (∀ q, q ≠ target → files w1 !! q = files w !! q)
    ∧ FileManager.delete path self w1 = (Raise (Fs.enoent target), self, w1).
Proof.
  intros Hres Ht.
  assert (Hlook : files w !! target = Some (File data)) by (by destruct target).
  exists (set_files (delete target (files w)) w).
  assert (Hfirst : FileManager.delete path self w
                   = (Return (), self, set_files (delete target (files w)) w)).
  { unfold FileManager.delete. rewrite Hres, Ht. unfold Fs.unlink. by rewrite Hlook. }
  split; [exact Hfirst|]. cbn [files set_files].
  split; [apply lookup_delete_eq|]. split.
  { intros q Hq. by rewrite lookup_delete_ne. }
  assert (Hlinks : ∀ k tgt, delete target (files w) !! k = Some (Link tgt)
                            ↔ files w !! k = Some (Link tgt)).
  { intros k tgt. destruct (decide (k = target)) as [->|Hne].
    - rewrite lookup_delete_eq, Hlook. done.
    - by rewrite lookup_delete_ne. }
  unfold FileManager.delete. cbn [files getcwd set_files].
  unfold Fs.resolve. rewrite (realpath_links_agree (files w) _ Hlinks).
  fold (Fs.resolve (files w) (getcwd w) (joinpath (FileManager.cwd self) (Path path))).
  rewrite Hres.
  assert (Hgone : Fs.node_at (delete target (files w)) target = None).
  { destruct target; [done|]. cbn [Fs.node_at]. apply lookup_delete_eq. }
  rewrite Hgone. unfold Fs.unlink. by rewrite lookup_delete_eq.
Qed.

Lemma delete_file_then_again_raises_witness :
  ∃ w1,
    FileManager.delete "notes.txt" Demo.fm0 Demo.w0 = (Return (), Demo.fm0, w1)
    ∧ FileManager.delete "notes.txt" Demo.fm0 w1
      = (Raise (Exn FileNotFoundError
                  "[Errno 2] No such file or directory: '/home/u/notes.txt'"),
         Demo.fm0, w1).
Proof.
  destruct (delete_file_then_again_raises "notes.txt" Demo.fm0 Demo.w0
              ["home"; "u"; "notes.txt"] "hello" eq_refl eq_refl)
    as (w1 & Hfirst & _ & _ & Hagain).
  exists w1. split; [exact Hfirst|exact Hagain].
Defined.

(** ** list *)

Lemma children_spec fs t x :
  x ∈ Fs.children fs t ↔ is_Some (fs !! (t ++ [x])).
Proof.
  unfold Fs.children. rewrite list_elem_of_omap. split.
  - intros ([k n] & Hin & Hf). apply elem_of_map_to_list in Hin. cbn in Hf.
    destruct (decide (k ≠ [] ∧ removelast k = t)) as [[Hk Hr]|]; [|done].
    injection Hf as <-. subst t.
    rewrite <- (app_removelast_last "" Hk). eauto.
  - intros [n Hn]. exists (t ++ [x], n). split; [by apply elem_of_map_to_list|].
    cbn. rewrite decide_True.
    + by rewrite last_last.
    + split; [by destruct t|]. by rewrite removelast_last.
Qed.

Lemma children_NoDup fs t : NoDup (Fs.children fs t).
Proof.
  unfold Fs.children.
  pose proof (NoDup_fst_map_to_list fs) as Hnd.
  induction (map_to_list fs) as [|[k n] l IH]; [constructor|].
  cbn in Hnd. apply NoDup_cons in Hnd as [Hk Hnd]. cbn.
  destruct (decide (k ≠ [] ∧ removelast k = t)) as [[Hne Hr]|]; [|by apply IH].
  apply NoDup_cons. split; [|by apply IH].
  intros Hin. apply list_elem_of_omap in Hin as ([k' n'] & Hin & Hf). cbn in Hf.
  destruct (decide (k' ≠ [] ∧ removelast k' = t)) as [[Hne' Hr']|]; [|done].
  injection Hf as Hlast. apply Hk.
  assert (k' = k) as <-.
  { rewrite (app_removelast_last "" Hne), (app_removelast_last "" Hne').
    by rewrite Hr, Hr', Hlast. }
  apply list_elem_of_fmap. by exists (k', n').
Qed.

(** X10.  [list] returns exactly when the current directory [is_dir()];
    what it returns are the names of the entries of the resolved
    directory, every immediate child once and nothing else; and it changes
    neither the manager nor the world. *)
Theorem list_names_children (self : FileManager.t) (w : world) :
  (FileManager.list self w).1.2 = self
  ∧ (FileManager.list self w).2 = w
  ∧ ((∃ names, (FileManager.list self w).1.1 = Return names)
     ↔ Fs.is_dir (files w) (getcwd w) (FileManager.cwd self) = true)
  ∧ ∀ names, (FileManager.list self w).1.1 = Return names →
      ∃ target,
        Fs.realpath true Fs.MAXSYMLINKS (files w) []
          (Fs.from_root (getcwd w) (FileManager.cwd self)) = Return target
        ∧ NoDup names
        ∧ ∀ x, x ∈ names ↔ is_Some (files w !! (target ++ [x])).
Proof.
  unfold FileManager.list, Fs.is_dir, Fs.stat.
  destruct (Fs.realpath true Fs.MAXSYMLINKS (files w) []
              (Fs.from_root (getcwd w) (FileManager.cwd self))) as [target|e].
  - destruct (Fs.node_at (files w) target) as [[data|tgt|]|]; cbn [fst snd].
    + repeat split; try done; by intros [? ?].
    + repeat split; try done; by intros [? ?].
    + split; [done|]. split; [done|]. split; [split; eauto|].
      intros names [= <-]. exists target. split; [done|]. split.
      * apply children_NoDup.
      * apply children_spec.
    + repeat split; try done; by intros [? ?].
  - cbn [fst snd]. repeat split; try done; by intros [? ?].
Qed.

Lemma list_names_children_witness :
  ∃ names, (FileManager.list Demo.fm0 Demo.w0).1.1 = Return names
           ∧ "notes.txt" ∈ names ∧ "todo.txt" ∉ names.
Proof.
  destruct (list_names_children Demo.fm0 Demo.w0) as (_ & _ & [_ Hdir] & Hnames).
  destruct Hdir as [names Hlist]; [vm_compute; reflexivity|].
  destruct (Hnames names Hlist) as (target & Htarget & _ & Hin).
  vm_compute in Htarget. injection Htarget as <-.
  exists names. split; [exact Hlist|]. split.
  - apply Hin. vm_compute. eauto.
  - intros Hx. apply Hin in Hx as [n Hn]. vm_compute in Hn. discriminate.
Defined.

Section sessions.
Context {host : Host}.

(** One call leaves a well-formed tree well-formed, unless it goes through
    [shutil] or [os.rename]. *)
Lemma perform_tree_ok (c : FileManager.call) (self : FileManager.t) (w : world) :
  Fs.tree_ok (files w) →
  match c with
  | FileManager.Copy _ _ | FileManager.Move _ _ | FileManager.Rename _ _ => False
  | _ => True
  end →
  Fs.tree_ok (files (FileManager.perform c self w).2).
Proof.
  intros Hok Hc.
  destruct (operations_keep_tree_ok
              match c with
              | FileManager.Delete p | FileManager.Dig p | FileManager.Carrot p => p
              | _ => ""
              end self w Hok) as (Hdig & Hcarrot & Hdelete).
  destruct c as [|path| |src dst|src dst|src dst|path|path|path];
    try done; unfold FileManager.perform, FileManager.forget.
  - assert (files (FileManager.hop path self w).2 = files w) as Hfiles.
    { unfold FileManager.hop, FileManager._persist, Storage.write.
      repeat inner_case; by cbn. }
    destruct (FileManager.hop path self w) as [[[spot|e] self'] w'];
      cbn [snd] in *; by rewrite Hfiles.
  - assert (files (FileManager.list self w).2 = files w) as Hfiles.
    { unfold FileManager.list. repeat inner_case; by cbn. }
    destruct (FileManager.list self w) as [[[names|e] self'] w'];
      cbn [snd] in *; by rewrite Hfiles.
  - by destruct (FileManager.delete path self w) as [[[?|e] self'] w'].
  - by destruct (FileManager.dig path self w) as [[[?|e] self'] w'].
  - by destruct (FileManager.carrot path self w) as [[[?|e] self'] w'].
Qed.

(** X11.  Well-formedness of the file tree (the root is no entry, and
    every entry has a directory above it) is an invariant of the manager:
    no sequence of [spot], [hop], [list], [delete], [dig] and [carrot]
    calls, returning or raising, takes a well-formed tree to one that is
    not. *)
Theorem tree_ok_is_invariant (calls : list FileManager.call)
    (self : FileManager.t) (w : world) :
  Fs.tree_ok (files w) →
  Forall (λ c, match c with
               | FileManager.Copy _ _ | FileManager.Move _ _
               | FileManager.Rename _ _ => False
               | _ => True
               end) calls →
  Fs.tree_ok
    (files (foldl (λ (sw : FileManager.t * world) c,
                     let r := FileManager.perform c sw.1 sw.2 in (r.1.2, r.2))
                  (self, w) calls).2).
Proof.
  intros Hok Hcalls. revert self w Hok.
  induction Hcalls as [|c calls Hc Hcalls IH]; intros self w Hok; [done|].
  cbn [foldl]. cbn [fst snd]. apply IH. by apply perform_tree_ok.
Qed.

End sessions.

(** A session in the example tree: a directory is dug, a file planted in
    it, the directory buried, and buried again. *)
Lemma tree_ok_is_invariant_witness :
  Fs.tree_ok
    (files (foldl (λ (sw : FileManager.t * world) c,
                     let r := FileManager.perform (H := Demo.host) c sw.1 sw.2 in
                     (r.1.2, r.2))
                  (Demo.fm0, Demo.w0)
                  [FileManager.Dig "a/b"; FileManager.Carrot "a/b/c.txt";
                   FileManager.Hop (Some "a"); FileManager.Delete "b";
                   FileManager.Delete "b"]).2).
Proof.
  apply (tree_ok_is_invariant (host := Demo.host)); [exact demo_tree_ok|].
  by repeat constructor.
Defined.

(** ** The entry point and the record *)

Lemma set_config_id w : set_config (config w) w = w.
Proof. by destruct w. Qed.

(** The construction of a manager raises exactly on an unusable record. *)
Lemma init_raises_exactly w :
  (∃ e, FileManager.init (Storage.init w) w = Raise e)
  ↔ ∃ c, config w !! name (Storage.path (Storage.init w)) = Some c
         ∧ record_unusable c.
Proof.
  unfold FileManager.init, Storage.read.
  destruct (config w !! name (Storage.path (Storage.init w))) as [[|text|v|v]|] eqn:Hc.
  - split; [|eauto]. intros _. by exists Undecodable.
  - split; [by intros [e ?]|]. by intros (c & [= <-] & ?).
  - split; [by intros [e ?]|]. by intros (c & [= <-] & ?).
  - split.
    + intros [e He]. exists (Document v). split; [done|]. cbn.
      destruct (State_kwargs v) as [st|e'] eqn:Hk.
      * right. apply State_kwargs_returns in Hk as (members & x & -> & Hall & ->).
        exists members, x. split; [done|]. split; [done|].
        intros s ->. done.
      * left. intros Hshape. apply record_shaped_snoc in Hshape as (members & x & -> & Hall).
        assert (State_kwargs (JObj (members ++ [("last_spot", x)])) = Return (MkState x))
          by (apply State_kwargs_returns; eauto).
        congruence.
    + intros (c & [= <-] & Hbad). cbn in Hbad.
      destruct (State_kwargs v) as [st|e'] eqn:Hk; [|eauto].
      apply State_kwargs_returns in Hk as (members & x & -> & Hall & ->).
      destruct Hbad as [Hshape | (members' & x' & Heq & _ & Hx)].
      * exfalso. apply Hshape, record_shaped_snoc. eauto.
      * injection Heq as Heq. apply app_inj_tail in Heq as [_ [= ->]].
        cbn. destruct x'; eauto. by destruct (Hx s).
  - split; [by intros [e ?]|]. by intros (c & ? & _).
Qed.

(** X12.  The manager is built before any handler is entered: when the
    record is unusable (bytes that are not UTF-8, JSON of the wrong shape,
    or a [last_spot] that is no string; and only then), every direct
    command, [spot] included, and the entry into a burrow end with an
    uncaught exception and an untouched world. *)
Theorem unusable_record_crashes_every_command `{Host} (argv : list string)
    (cmd : option command) (verbose : bool) (w : world) :
  Cli.top_level_help argv && negb (Cli.mentions_sub argv) = false →
  parse_args argv = Namespace cmd verbose →
  (cmd = None → environ w !! "FILEBUNNY_BURROW" ≠ Some "1") →
  ((∃ c, config w !! name (Storage.path (Storage.init w)) = Some c
         ∧ record_unusable c)
   → ∃ e, Cli.main argv w = (Uncaught e, w)
          ∧ FileManager.init (Storage.init w) w = Raise e)
  ∧ ((∃ e, FileManager.init (Storage.init w) w = Raise e)
     → ∃ c, config w !! name (Storage.path (Storage.init w)) = Some c
            ∧ record_unusable c).
Proof.
  intros Hhelp Hparse Hmark. split; [|apply init_raises_exactly].
  intros Hbad. apply init_raises_exactly in Hbad as [e He]. exists e.
  split; [|done]. unfold Cli.main. rewrite Hhelp, Hparse.
  destruct cmd as [c|].
  - unfold Cli.direct. by rewrite He.
  - rewrite bool_decide_eq_false_2 by auto. unfold Cli.enter_burrow. by rewrite He.
Qed.

Lemma unusable_record_crashes_every_command_witness :
  ∃ e, Cli.main (H := Demo.host) ["spot"]
         (Demo.with_record (Document (JObj [("last_spot", JNum 5)])) Demo.w0)
       = (Uncaught e,
          Demo.with_record (Document (JObj [("last_spot", JNum 5)])) Demo.w0).
Proof.
  destruct (proj1 (unusable_record_crashes_every_command (H := Demo.host) ["spot"]
                     (Some CSpot) false
                     (Demo.with_record (Document (JObj [("last_spot", JNum 5)])) Demo.w0)
                     eq_refl eq_refl (λ H, ltac:(discriminate H))))
    as (e & Hmain & _).
  - exists (Document (JObj [("last_spot", JNum 5)])). split; [reflexivity|].
    right. exists [], (JNum 5). split; [reflexivity|]. split; [constructor|].
    discriminate.
  - by exists e.
Defined.



(** ** The shell of a session *)

Lemma endswith_spec (s suffix : string) :
  Cli.endswith s suffix = true ↔ ∃ pre, s = pre +:+ suffix.
Proof.
  induction s as [|c s IH]; cbn [Cli.endswith].
  - rewrite orb_false_r, bool_decide_eq_true. split.
    + intros <-. by exists "".
    + intros [[|c pre] Hpre]; [done|discriminate].
  - rewrite orb_true_iff, bool_decide_eq_true, IH. split.
    + intros [<-|[pre ->]]; [by exists ""|by exists (String c pre)].
    + intros [[|c' pre] Hpre]; [by left|]. right.
      injection Hpre as -> ->. by exists pre.
Qed.

(** X14.  Away from Windows the session runs the shell named by [SHELL],
    and [/bin/sh] when [SHELL] is unset or empty: never an empty command.
    The shell gets the start-up file with the helpers exactly when its
    name ends in [bash]; any other shell is started plainly, in the same
    directory. *)
Theorem session_shell_is_never_empty (dest : string) (verbose : bool)
    (w : world) :
  system w ≠ "Windows" →
  ∃ shell,
    shell ≠ ""
    ∧ (environ w !! "SHELL" = Some shell
       ∨ shell = "/bin/sh"
         ∧ (environ w !! "SHELL" = None ∨ environ w !! "SHELL" = Some ""))
    ∧ ((∃ pre, shell = pre +:+ "bash") →
       Cli.session_launch dest verbose w = BashRc shell dest verbose)
    ∧ (¬ (∃ pre, shell = pre +:+ "bash") →
       Cli.session_launch dest verbose w = PlainShell shell dest).
Proof.
  intros Hsys. unfold Cli.session_launch. rewrite bool_decide_eq_false_2 by done.
  set (shell := match environ w !! "SHELL" with
                | Some (String _ _ as s) => s
                | _ => "/bin/sh"
                end).
  exists shell. split; [|split; [|split]].
  - subst shell. by destruct (environ w !! "SHELL") as [[|c s]|].
  - subst shell. destruct (environ w !! "SHELL") as [[|c s]|]; auto.
  - intros Hbash%endswith_spec. by rewrite Hbash.
  - intros Hplain. destruct (Cli.endswith shell "bash") eqn:Hends; [|done].
    by apply endswith_spec in Hends.
Qed.

(** In the example world [SHELL] is unset. *)
Lemma session_shell_is_never_empty_witness :
  Cli.session_launch "/home/u" false Demo.w0
  = PlainShell "/bin/sh" "/home/u".
Proof.
  destruct (session_shell_is_never_empty "/home/u" false Demo.w0)
    as (shell & _ & Hshell & _ & Hplain); [done|].
  destruct Hshell as [Hset|[-> _]]; [done|].
  apply Hplain. intros [pre Hpre].
  assert (Cli.endswith "/bin/sh" "bash" = true) as Hends
    by (apply endswith_spec; by exists pre).
  vm_compute in Hends. discriminate.
Defined.

(** ** The logging decorators *)

Section logging.
Import Logging.
Context {host : Host} {handler : Handler}.

Lemma log_frame threshold l m w :
  files (log threshold l m w) = files w
  ∧ config (log threshold l m w) = config w
  ∧ getcwd (log threshold l m w) = getcwd w
  ∧ home (log threshold l m w) = home w
  ∧ stdout (log threshold l m w) = stdout w
  ∧ launched (log threshold l m w) = launched w.
Proof. unfold log. by destruct (decide _). Qed.

(** The operations of the manager do not look at the error stream. *)
Lemma operations_stream_blind :
  stream_blind FileManager.spot
  ∧ stream_blind FileManager.list
  ∧ (∀ path, stream_blind (FileManager.hop path))
  ∧ (∀ src dst, stream_blind (FileManager.copy src dst))
  ∧ (∀ src dst, stream_blind (FileManager.move src dst))
  ∧ (∀ src dst, stream_blind (FileManager.rename src dst))
  ∧ (∀ path, stream_blind (FileManager.delete path))
  ∧ (∀ path, stream_blind (FileManager.dig path))
  ∧ (∀ path, stream_blind (FileManager.carrot path)).
Proof.
  repeat split; intros; intros self w line;
    unfold FileManager.spot, FileManager.list, FileManager.hop,
      FileManager.hop_path, FileManager._persist, Storage.write,
      FileManager.copy, FileManager.move, FileManager.rename,
      FileManager.delete, FileManager.dig, FileManager.carrot;
    cbn [files getcwd home config eprint];
    repeat inner_case; reflexivity.
Qed.

Lemma stream_blind_log {A}
    (f : FileManager.t → world → outcome A * FileManager.t * world)
    threshold l m self w :
  stream_blind f →
  f self (log threshold l m w)
  = match f self w with (r, self', w') => (r, self', log threshold l m w') end.
Proof.
  intros Hblind. unfold log. destruct (decide _); [apply Hblind|].
  by destruct (f self w) as [[r self'] w'].
Qed.

(** A decorated call is the call followed by its records. *)
Lemma decorated_emit {A}
    (f : FileManager.t → world → outcome A * FileManager.t * world)
    (threshold : nat) (fn : string) (args : list value)
    (self : FileManager.t) (w : world) :
  stream_blind f →
  decorated threshold fn args f self w
  = match f self w with
    | (r, self', w') => (r, self', emit threshold (records fn args r) w')
    end.
Proof.
  intros Hblind. unfold decorated, log_errors, log_call, log_timing.
  rewrite stream_blind_log by done.
  destruct (f self w) as [[[a|e] self'] w']; reflexivity.
Qed.

End logging.


Section logged_dispatch.
Import Logging.
Context {host : Host} {handler : Handler}.

Lemma emit_world threshold rs w :
  emit threshold rs w
  = World (files w) (config w) (getcwd w) (home w) (environ w) (system w)
          (user_config_dir w) (stdout w) (stderr w ++ visible threshold rs)
          (launched w).
Proof.
  unfold emit, visible. revert w.
  induction rs as [|[l m] rs IH]; intros w; cbn [fold_left List.filter List.map fst snd].
  - rewrite app_nil_r. by destruct w.
  - rewrite IH. unfold log.
    destruct (decide (threshold ≤ levelno l)) as [Hl|Hl].
    + rewrite bool_decide_eq_true_2 by done. cbn. by rewrite <- app_assoc.
    + by rewrite bool_decide_eq_false_2 by done.
Qed.

(** The operations of the manager leave the error stream alone. *)
Lemma operations_keep_stderr self w :
  stderr (FileManager.spot self w).2 = stderr w
  ∧ stderr (FileManager.list self w).2 = stderr w
  ∧ (∀ path, stderr (FileManager.hop path self w).2 = stderr w)
  ∧ (∀ src dst, stderr (FileManager.copy src dst self w).2 = stderr w)
  ∧ (∀ src dst, stderr (FileManager.move src dst self w).2 = stderr w)
  ∧ (∀ src dst, stderr (FileManager.rename src dst self w).2 = stderr w)
  ∧ (∀ path, stderr (FileManager.delete path self w).2 = stderr w)
  ∧ (∀ path, stderr (FileManager.dig path self w).2 = stderr w)
  ∧ (∀ path, stderr (FileManager.carrot path self w).2 = stderr w).
Proof.
  repeat split; intros;
    unfold FileManager.spot, FileManager.list, FileManager.hop,
      FileManager._persist, Storage.write,
      FileManager.copy, FileManager.move, FileManager.rename,
      FileManager.delete, FileManager.dig, FileManager.carrot;
    repeat inner_case; by cbn.
Qed.

(** X15.  The decorators change neither what an operation returns or
    raises nor what it does to the manager, the file tree, the record and
    the output; they add to the error stream the records [CALL] and [TIME]
    at level [INFO], in this order, and after them, when the operation
    raises, the record [ERROR in ...] at level [ERROR]: each of them when
    the level of the root logger lets it through. *)
Theorem decorated_call_records {A}
    (f : FileManager.t → world → outcome A * FileManager.t * world)
    (threshold : nat) (fn : string) (args : Datatypes.list value)
    (self : FileManager.t) (w : world) :
  stream_blind f →
  let logged := decorated threshold fn args f self w in
  let plain := f self w in
  logged.1 = plain.1
  ∧ files logged.2 = files plain.2
  ∧ config logged.2 = config plain.2
  ∧ stdout logged.2 = stdout plain.2
  ∧ launched logged.2 = launched plain.2
  ∧ stderr logged.2
    = stderr plain.2
      ++ visible threshold
           ([(INFO, Call fn args); (INFO, Timing fn)]
            ++ match plain.1.1 with
               | Raise e => [(ERROR, Failure fn e)]
               | Return _ => []
               end).
Proof.
  intros Hblind logged plain. subst logged plain.
  rewrite decorated_emit by done.
  destruct (f self w) as [[r self'] w']. by rewrite emit_world.
Qed.

Lemma visible_quiet {A} threshold fn args (a : A) :
  levelno INFO < threshold → visible threshold (records fn args (Return a)) = [].
Proof.
  intros Hq. unfold visible, records. cbn [app List.filter fst].
  rewrite !bool_decide_eq_false_2 by (cbn in *; lia). done.
Qed.

Lemma visible_failure {A} threshold fn args e :
  levelno INFO < threshold → threshold ≤ levelno ERROR →
  visible threshold (records (A := A) fn args (Raise e)) = [render ERROR (Failure fn e)].
Proof.
  intros Hq He. unfold visible, records. cbn [app List.filter fst].
  rewrite !bool_decide_eq_false_2 by (cbn in *; lia).
  by rewrite bool_decide_eq_true_2 by done.
Qed.

(** A branch of [main] around a decorated call, against the same branch
    around the bare call. *)
Lemma branch_with_logs {A}
    (branch : outcome A * FileManager.t * world → termination * world)
    (f : FileManager.t → world → outcome A * FileManager.t * world)
    (threshold : nat) (fn : string) (args : Datatypes.list value)
    (fm : FileManager.t) (w : world) :
  stream_blind f →
  stderr (f fm w).2 = stderr w →
  (∀ r self' w' ls,
     let after := World (files w') (config w') (getcwd w') (home w') (environ w')
                        (system w') (user_config_dir w') (stdout w')
                        (stderr w' ++ ls) (launched w') in
     (branch (r, self', after)).1 = (branch (r, self', w')).1
     ∧ files (branch (r, self', after)).2 = files (branch (r, self', w')).2
     ∧ config (branch (r, self', after)).2 = config (branch (r, self', w')).2
     ∧ stdout (branch (r, self', after)).2 = stdout (branch (r, self', w')).2
     ∧ launched (branch (r, self', after)).2 = launched (branch (r, self', w')).2
     ∧ ∃ rest, stderr (branch (r, self', after)).2 = stderr w' ++ ls ++ rest
               ∧ stderr (branch (r, self', w')).2 = stderr w' ++ rest) →
  (∀ e self' w', (branch (Raise e, self', w')).1 ≠ Returned) →
  let logged := branch (decorated threshold fn args f fm w) in
  let plain := branch (f fm w) in
  logged.1 = plain.1
  ∧ files logged.2 = files plain.2
  ∧ config logged.2 = config plain.2
  ∧ stdout logged.2 = stdout plain.2
  ∧ launched logged.2 = launched plain.2
  ∧ (∃ logs rest, stderr logged.2 = stderr w ++ logs ++ rest
                  ∧ stderr plain.2 = stderr w ++ rest)
  ∧ (levelno INFO < threshold → plain.1 = Returned → logged = plain).
Proof.
  intros Hblind Hkeep Hbranch Hraise logged plain. subst logged plain.
  rewrite decorated_emit by done.
  destruct (f fm w) as [[r self'] w'] eqn:Hop. cbn [snd] in Hkeep.
  rewrite emit_world.
  destruct (Hbranch r self' w' (visible threshold (records fn args r)))
    as (H1 & H2 & H3 & H4 & H5 & rest & H6 & H7).
  cbv zeta in *.
  split; [done|]. split; [done|]. split; [done|]. split; [done|]. split; [done|].
  split.
  - exists (visible threshold (records fn args r)), rest. by rewrite <- Hkeep.
  - intros Hq Hend. destruct r as [a|e].
    + rewrite visible_quiet by done. rewrite app_nil_r. by destruct w'.
    + by destruct (Hraise e self' w').
Qed.

(** X16.  Logging changes nothing but the error stream: a direct command
    with its decorators ends as it ends without them, with the same
    output, file tree and record; its error stream holds the log lines and
    after them what it holds without the decorators.  With a threshold
    above [INFO] a command that returns writes no log line at all. *)
Theorem logging_is_transparent (threshold : nat) (c : command)
    (fm : FileManager.t) (w : world) :
  let logged := Logged.dispatch threshold c fm w in
  let plain := Cli.dispatch c fm w in
  logged.1 = plain.1
  ∧ files logged.2 = files plain.2
  ∧ config logged.2 = config plain.2
  ∧ stdout logged.2 = stdout plain.2
  ∧ launched logged.2 = launched plain.2
  ∧ (∃ logs rest, stderr logged.2 = stderr w ++ logs ++ rest
                  ∧ stderr plain.2 = stderr w ++ rest)
  ∧ (levelno INFO < threshold → plain.1 = Returned → logged = plain).
Proof.
  assert (Hguard : ∀ cmd (r : outcome string) self' w' ls,
    let after := World (files w') (config w') (getcwd w') (home w') (environ w')
                       (system w') (user_config_dir w') (stdout w')
                       (stderr w' ++ ls) (launched w') in
    (Cli.guarded cmd (r, self', after)).1 = (Cli.guarded cmd (r, self', w')).1
    ∧ files (Cli.guarded cmd (r, self', after)).2 = files (Cli.guarded cmd (r, self', w')).2
    ∧ config (Cli.guarded cmd (r, self', after)).2 = config (Cli.guarded cmd (r, self', w')).2
    ∧ stdout (Cli.guarded cmd (r, self', after)).2 = stdout (Cli.guarded cmd (r, self', w')).2
    ∧ launched (Cli.guarded cmd (r, self', after)).2
      = launched (Cli.guarded cmd (r, self', w')).2
    ∧ ∃ rest, stderr (Cli.guarded cmd (r, self', after)).2 = stderr w' ++ ls ++ rest
              ∧ stderr (Cli.guarded cmd (r, self', w')).2 = stderr w' ++ rest).
  { intros cmd [a|e] self' w' ls; cbn; repeat split; try done.
    - exists []. by rewrite !app_nil_r.
    - exists [Cli.diagnostic cmd e]. by rewrite <- app_assoc. }
  assert (Hunguard : ∀ done (r : outcome ()) self' w' ls,
    let after := World (files w') (config w') (getcwd w') (home w') (environ w')
                       (system w') (user_config_dir w') (stdout w')
                       (stderr w' ++ ls) (launched w') in
    (Cli.unguarded done (r, self', after)).1 = (Cli.unguarded done (r, self', w')).1
    ∧ files (Cli.unguarded done (r, self', after)).2
      = files (Cli.unguarded done (r, self', w')).2
    ∧ config (Cli.unguarded done (r, self', after)).2
      = config (Cli.unguarded done (r, self', w')).2
    ∧ stdout (Cli.unguarded done (r, self', after)).2
      = stdout (Cli.unguarded done (r, self', w')).2
    ∧ launched (Cli.unguarded done (r, self', after)).2
      = launched (Cli.unguarded done (r, self', w')).2
    ∧ ∃ rest, stderr (Cli.unguarded done (r, self', after)).2 = stderr w' ++ ls ++ rest
              ∧ stderr (Cli.unguarded done (r, self', w')).2 = stderr w' ++ rest).
  { intros done [a|e] self' w' ls; cbn; repeat split; try done;
      exists []; by rewrite !app_nil_r. }
  pose proof operations_stream_blind as (B1 & B2 & B3 & B4 & B5 & B6 & B7 & B8 & B9).
  pose proof (operations_keep_stderr fm w) as (K1 & K2 & K3 & K4 & K5 & K6 & K7 & K8 & K9).
  destruct c as [|path|all|src dst|src dst|path|src dst|path|path];
    unfold Logged.dispatch, Cli.dispatch.
  - apply (branch_with_logs (Cli.guarded "spot"));
      [exact B1 | exact K1 | intros; apply Hguard | by intros].
  - apply (branch_with_logs (Cli.guarded "hop"));
      [apply B3 | apply K3 | intros; apply Hguard | by intros].
  - apply (branch_with_logs (Logged.peek_branch all));
      [exact B1 | exact K1 | | by intros].
    intros [root|e] self' w' ls; unfold Logged.peek_branch; cbn [files getcwd].
    + destruct (peek_report (files w') (getcwd w') (Path root) all)
        as [[out err]|e]; cbn [fst snd].
      * rewrite !eprints_world, !prints_world. cbn.
        repeat (split; [done|]). exists err. by rewrite <- !app_assoc.
      * cbn. repeat (split; [done|]). exists []. by rewrite !app_nil_r.
    + cbn. repeat (split; [done|]). exists []. by rewrite !app_nil_r.
  - apply (branch_with_logs (Cli.unguarded _));
      [apply B4 | apply K4 | intros; apply Hunguard | by intros].
  - apply (branch_with_logs (Cli.unguarded _));
      [apply B5 | apply K5 | intros; apply Hunguard | by intros].
  - apply (branch_with_logs (Cli.unguarded _));
      [apply B7 | apply K7 | intros; apply Hunguard | by intros].
  - apply (branch_with_logs (Cli.unguarded _));
      [apply B6 | apply K6 | intros; apply Hunguard | by intros].
  - destruct (branch_with_logs (Cli.guarded "dig") (FileManager.dig path)
                (levelno WARNING) "dig" [VStr path] fm w)
      as (H1 & H2 & H3 & H4 & H5 & H6 & H7);
      [apply B8 | apply K8 | intros; apply Hguard | by intros |].
    repeat (split; [done|]). intros _. apply H7. cbn. lia.
  - destruct (branch_with_logs (Cli.guarded "carrot") (FileManager.carrot path)
                (levelno WARNING) "carrot" [VStr path] fm w)
      as (H1 & H2 & H3 & H4 & H5 & H6 & H7);
      [apply B9 | apply K9 | intros; apply Hguard | by intros |].
    repeat (split; [done|]). intros _. apply H7. cbn. lia.
Qed.

Lemma visible_info {A} fn args (a : A) :
  visible (levelno INFO) (records fn args (Return a))
  = [render INFO (Call fn args); render INFO (Timing fn)].
Proof.
  unfold visible, records. cbn [app List.filter fst].
  by rewrite !bool_decide_eq_true_2 by (cbn; lia).
Qed.

(** What a decorated call that returns into a branch of [main] leaves on
    the error stream. *)
Lemma returned_branch_stderr {A}
    (branch : outcome A * FileManager.t * world → termination * world)
    (f : FileManager.t → world → outcome A * FileManager.t * world)
    (P : Datatypes.list string → Prop)
    (threshold : nat) (fn : string) (args : Datatypes.list value)
    (fm : FileManager.t) (w : world) :
  stream_blind f →
  stderr (f fm w).2 = stderr w →
  (∀ e self' w', (branch (Raise e, self', w')).1 ≠ Returned) →
  (∀ a self' w',
     ∃ rest, stderr (branch (Return a, self', w')).2 = stderr w' ++ rest ∧ P rest) →
  (branch (decorated threshold fn args f fm w)).1 = Returned →
  ∃ rest,
    stderr (branch (decorated threshold fn args f fm w)).2
    = stderr w ++ visible threshold [(INFO, Call fn args); (INFO, Timing fn)] ++ rest
    ∧ P rest.
Proof.
  intros Hblind Hkeep Hraise Hret.
  rewrite decorated_emit by done.
  destruct (f fm w) as [[[a|e] self'] w'] eqn:Hop; cbn [snd] in Hkeep.
  - intros _. destruct (Hret a self' (emit threshold (records fn args (Return a)) w'))
      as (rest & Hrest & HP).
    exists rest. split; [|done]. rewrite Hrest, emit_world. cbn [stderr records app].
    by rewrite Hkeep, <- app_assoc.
  - intros Hend. by destruct (Hraise e self' _ Hend).
Qed.

(** X17.  With [-V] a direct command that returns has written, before
    anything else it writes to the error stream, the records [CALL] and
    [TIME] of the one operation it calls, whatever the level of the
    logger was; except [dig] and [carrot], which lower the level to
    [WARNING] again and write nothing.  Only [peek] writes more. *)
Theorem verbose_reaches_all_but_dig_and_carrot (threshold : nat) (c : command)
    (w : world) :
  let run := Logged.direct threshold true c w in
  let trace fn args := [render INFO (Call fn args); render INFO (Timing fn)] in
  run.1 = Returned →
  ∃ rest,
    stderr run.2
    = stderr w
      ++ match c with
         | CSpot | CPeek _ => trace "spot" []
         | CHop path => trace "hop" [Logged.of_option path]
         | CCopy src dst => trace "copy" [VStr src; VStr dst]
         | CMove src dst => trace "move" [VStr src; VStr dst]
         | CBury path => trace "delete" [VStr path]
         | CRename src dst => trace "rename" [VStr src; VStr dst]
         | CDig _ | CCarrot _ => []
         end
      ++ rest
    ∧ (rest ≠ [] → ∃ all, c = CPeek all).
Proof.
  intros run trace. subst run trace. unfold Logged.direct.
  destruct (FileManager.init (Storage.init w) w) as [fm0|e]; [|done].
  set (fm := FileManager.set_cwd (Path (getcwd w)) fm0).
  pose proof operations_stream_blind as (B1 & B2 & B3 & B4 & B5 & B6 & B7 & B8 & B9).
  pose proof (operations_keep_stderr fm w) as (K1 & K2 & K3 & K4 & K5 & K6 & K7 & K8 & K9).
  assert (Hinfo : ∀ fn args,
    visible (levelno INFO) [(INFO, Call fn args); (INFO, Timing fn)]
    = [render INFO (Call fn args); render INFO (Timing fn)]).
  { intros. unfold visible. cbn [List.filter fst].
    by rewrite !bool_decide_eq_true_2 by (cbn; lia). }
  assert (Hwarn : ∀ fn args,
    visible (levelno WARNING) [(INFO, Call fn args); (INFO, Timing fn)] = []).
  { intros. unfold visible. cbn [List.filter fst].
    by rewrite !bool_decide_eq_false_2 by (cbn; lia). }
  assert (Hg : ∀ cmd a self' w',
    ∃ rest, stderr (Cli.guarded cmd (Return a, self', w')).2 = stderr w' ++ rest
            ∧ rest = []).
  { intros. exists []. by rewrite app_nil_r. }
  assert (Hu : ∀ done a self' w',
    ∃ rest, stderr (Cli.unguarded done (Return a, self', w')).2 = stderr w' ++ rest
            ∧ rest = []).
  { intros. exists []. by rewrite app_nil_r. }
  destruct c as [|path|all|src dst|src dst|path|src dst|path|path];
    unfold Logged.dispatch, Logged.spot, Logged.hop, Logged.copy, Logged.move,
      Logged.delete, Logged.rename, Logged.dig, Logged.carrot; intros Hend.
  - apply (returned_branch_stderr (Cli.guarded "spot") _ (λ rest, rest = [])) in Hend
      as (rest & -> & ->); [|exact B1|exact K1|by intros|apply Hg].
    rewrite Hinfo. by exists [].
  - apply (returned_branch_stderr (Cli.guarded "hop") _ (λ rest, rest = [])) in Hend
      as (rest & -> & ->); [|apply B3|apply K3|by intros|apply Hg].
    rewrite Hinfo. by exists [].
  - apply (returned_branch_stderr (Logged.peek_branch all) _ (λ _, True)) in Hend
      as (rest & -> & _); [|exact B1|exact K1| |].
    + rewrite Hinfo. exists rest. split; [done|]. by exists all.
    + by intros.
    + intros root self' w'. unfold Logged.peek_branch.
      destruct (peek_report (files w') (getcwd w') (Path root) all) as [[out err]|e].
      * exists err. by rewrite eprints_world, prints_world.
      * exists []. by rewrite app_nil_r.
  - apply (returned_branch_stderr (Cli.unguarded _) _ (λ rest, rest = [])) in Hend
      as (rest & -> & ->); [|apply B4|apply K4|by intros|apply Hu].
    rewrite Hinfo. by exists [].
  - apply (returned_branch_stderr (Cli.unguarded _) _ (λ rest, rest = [])) in Hend
      as (rest & -> & ->); [|apply B5|apply K5|by intros|apply Hu].
    rewrite Hinfo. by exists [].
  - apply (returned_branch_stderr (Cli.unguarded _) _ (λ rest, rest = [])) in Hend
      as (rest & -> & ->); [|apply B7|apply K7|by intros|apply Hu].
    rewrite Hinfo. by exists [].
  - apply (returned_branch_stderr (Cli.unguarded _) _ (λ rest, rest = [])) in Hend
      as (rest & -> & ->); [|apply B6|apply K6|by intros|apply Hu].
    rewrite Hinfo. by exists [].
  - apply (returned_branch_stderr (Cli.guarded "dig") _ (λ rest, rest = [])) in Hend
      as (rest & -> & ->); [|apply B8|apply K8|by intros|apply Hg].
    rewrite Hwarn. by exists [].
  - apply (returned_branch_stderr (Cli.guarded "carrot") _ (λ rest, rest = [])) in Hend
      as (rest & -> & ->); [|apply B9|apply K9|by intros|apply Hg].
    rewrite Hwarn. by exists [].
Qed.

End logged_dispatch.

(** A failing [hop] under the level [INFO]: three records. *)
Lemma decorated_call_records_witness :
  stderr (Logged.hop (handler := demo_handler) 20 (Some "nowhere")
            Demo.fm0 Demo.w0).2
  = ["CALL hop"; "TIME hop"; "ERROR in hop: path does not exist: /home/u/nowhere"].
Proof.
  unfold Logged.hop.
  destruct (decorated_call_records (handler := demo_handler)
              (FileManager.hop (Some "nowhere")) 20 "hop"
              [Logged.of_option (Some "nowhere")] Demo.fm0 Demo.w0)
    as (_ & _ & _ & _ & _ & Herr).
  - apply (operations_stream_blind (host := Demo.host)).
  - etrans; [exact Herr|]. vm_compute. reflexivity.
Defined.

(** [filebunny hop docs] under the level [WARNING]: the decorators leave
    no trace. *)
Lemma logging_is_transparent_witness :
  Logged.dispatch (host := Demo.host) (handler := demo_handler) 30
    (CHop (Some "docs")) Demo.fm0 Demo.w0
  = Cli.dispatch (H := Demo.host) (CHop (Some "docs")) Demo.fm0 Demo.w0.
Proof.
  pose proof (logging_is_transparent (host := Demo.host) (handler := demo_handler) 30
                (CHop (Some "docs")) Demo.fm0 Demo.w0)
    as (_ & _ & _ & _ & _ & _ & Hquiet).
  apply Hquiet; [cbn; lia | vm_compute; reflexivity].
Defined.

(** [filebunny -V hop docs] and [filebunny -V dig burrow]. *)
Lemma verbose_reaches_all_but_dig_and_carrot_witness :
  stderr (Logged.direct (host := Demo.host) (handler := demo_handler) 30 true
            (CHop (Some "docs")) Demo.w0).2
  = ["CALL hop"; "TIME hop"]
  ∧ stderr (Logged.direct (host := Demo.host) (handler := demo_handler) 30 true
              (CDig "burrow") Demo.w0).2
    = [].
Proof.
  split.
  - destruct (verbose_reaches_all_but_dig_and_carrot (host := Demo.host)
                (handler := demo_handler) 30 (CHop (Some "docs")) Demo.w0)
      as (rest & Herr & Hrest); [vm_compute; reflexivity|].
    destruct rest as [|line rest]; [exact Herr|].
    by destruct Hrest as [all Hall].
  - destruct (verbose_reaches_all_but_dig_and_carrot (host := Demo.host)
                (handler := demo_handler) 30 (CDig "burrow") Demo.w0)
      as (rest & Herr & Hrest); [vm_compute; reflexivity|].
    destruct rest as [|line rest]; [exact Herr|].
    by destruct Hrest as [all Hall].
Defined.

(** ** The listing of peek *)

(** The order of strings by code points is a total order. *)
Lemma ascii_compare_refl c : Ascii.compare c c = Eq.
Proof. unfold Ascii.compare. apply N.compare_refl. Qed.

Lemma string_compare_refl s : String.compare s s = Eq.
Proof. induction s as [|c s IH]; [done|]. cbn. by rewrite ascii_compare_refl. Qed.

Lemma string_compare_lt_trans s1 : ∀ s2 s3,
  String.compare s1 s2 = Lt → String.compare s2 s3 = Lt → String.compare s1 s3 = Lt.
Proof.
  induction s1 as [|c1 s1 IH]; intros [|c2 s2] [|c3 s3]; cbn; try done.
  unfold Ascii.compare.
  destruct (N.compare_spec (N_of_ascii c1) (N_of_ascii c2)) as [H12|H12|H12]; [| |done].
  - rewrite H12. destruct (N_of_ascii c2 ?= N_of_ascii c3)%N; [|done..]. apply IH.
  - intros _.
    destruct (N.compare_spec (N_of_ascii c2) (N_of_ascii c3)) as [H23|H23|H23]; [| |done].
    + intros _. rewrite <- H23. by apply N.compare_lt_iff in H12 as ->.
    + intros _. assert (N_of_ascii c1 < N_of_ascii c3)%N as Hlt by lia.
      by apply N.compare_lt_iff in Hlt as ->.
Qed.

Lemma string_ltb_irrefl s : String.ltb s s = false.
Proof. unfold String.ltb. by rewrite string_compare_refl. Qed.

Lemma string_ltb_asym s1 s2 : String.ltb s1 s2 = true → String.ltb s2 s1 = false.
Proof.
  unfold String.ltb. rewrite (String.compare_antisym s1 s2).
  by destruct (String.compare s2 s1).
Qed.

(** [s1 <= s2] and [s2 <= s3] give [s1 <= s3]. *)
Lemma string_not_ltb_trans s1 s2 s3 :
  String.ltb s2 s1 = false → String.ltb s3 s2 = false → String.ltb s3 s1 = false.
Proof.
  unfold String.ltb. intros H21 H32.
  destruct (String.compare s3 s2) eqn:C32; [|done|].
  - apply String.compare_eq_iff in C32 as ->. done.
  - destruct (String.compare s2 s1) eqn:C21; [|done|].
    + apply String.compare_eq_iff in C21 as ->. by rewrite C32.
    + assert (String.compare s1 s3 = Lt) as C13.
      { apply (string_compare_lt_trans s1 s2 s3).
        - by rewrite String.compare_antisym, C21.
        - by rewrite String.compare_antisym, C32. }
      by rewrite String.compare_antisym, C13.
Qed.

Lemma key_lt_irrefl a : Peek.key_lt a a = false.
Proof. unfold Peek.key_lt. rewrite decide_True by done. apply string_ltb_irrefl. Qed.

Lemma key_lt_asym a b : Peek.key_lt a b = true → Peek.key_lt b a = false.
Proof.
  unfold Peek.key_lt. destruct (decide (a.1 = b.1)) as [Heq|Hne].
  - rewrite decide_True by done. apply string_ltb_asym.
  - rewrite decide_False by done. intros Hlt%Nat.ltb_lt. apply Nat.ltb_ge. lia.
Qed.

Lemma key_not_lt_trans a b c :
  Peek.key_lt b a = false → Peek.key_lt c b = false → Peek.key_lt c a = false.
Proof.
  unfold Peek.key_lt.
  destruct (decide (b.1 = a.1)) as [Hba|Hba], (decide (c.1 = b.1)) as [Hcb|Hcb].
  - rewrite decide_True by congruence. apply string_not_ltb_trans.
  - rewrite decide_False by congruence. rewrite !Nat.ltb_ge. lia.
  - rewrite decide_False by congruence. rewrite !Nat.ltb_ge. lia.
  - rewrite !Nat.ltb_ge. intros H1 H2.
    destruct (decide (c.1 = a.1)); [lia|]. apply Nat.ltb_ge. lia.
Qed.

Section sorting_facts.
Context {A : Type} (key : A → nat * string).

Lemma insert_Permutation x l : Peek.insert key x l ≡ₚ x :: l.
Proof.
  induction l as [|y l IH]; [done|]. cbn.
  destruct (Peek.key_lt (key y) (key x)); [|done].
  rewrite IH. apply Permutation_swap.
Qed.

Lemma sorted_Permutation l : Peek.sorted key l ≡ₚ l.
Proof.
  induction l as [|x l IH]; [done|]. cbn.
  by rewrite insert_Permutation, IH.
Qed.

Lemma insert_StronglySorted x l :
  StronglySorted (λ a b, Peek.key_lt (key b) (key a) = false) l →
  StronglySorted (λ a b, Peek.key_lt (key b) (key a) = false) (Peek.insert key x l).
Proof.
  induction 1 as [|y l Hl IH Hy]; cbn.
  - repeat constructor.
  - destruct (Peek.key_lt (key y) (key x)) eqn:Hyx.
    + constructor; [done|].
      rewrite insert_Permutation. constructor; [by apply key_lt_asym|done].
    + constructor; [by constructor|]. constructor; [done|].
      eapply Forall_impl; [exact Hy|]. intros z Hz. cbn in Hz.
      by apply (key_not_lt_trans (key x) (key y) (key z)).
Qed.

Lemma sorted_StronglySorted l :
  StronglySorted (λ a b, Peek.key_lt (key b) (key a) = false) (Peek.sorted key l).
Proof.
  induction l as [|x l IH]; cbn; [constructor|]. by apply insert_StronglySorted.
Qed.

Lemma filter_StronglySorted (R : A → A → Prop) (P : A → bool) l :
  StronglySorted R l → StronglySorted R (List.filter P l).
Proof.
  induction 1 as [|y l Hl IH Hy]; cbn; [constructor|].
  destruct (P y); [|done]. constructor; [done|].
  apply List.Forall_forall. intros z Hz%filter_In.
  rewrite List.Forall_forall in Hy. apply Hy, Hz.
Qed.

(** Elements of one key keep their order. *)
Lemma insert_stable (k : nat * string) x l :
  List.filter (λ y, bool_decide (key y = k)) (Peek.insert key x l)
  = List.filter (λ y, bool_decide (key y = k)) (x :: l).
Proof.
  induction l as [|y l IH]; [done|]. cbn [Peek.insert].
  destruct (Peek.key_lt (key y) (key x)) eqn:Hyx; [|done].
  cbn [List.filter] in *. rewrite IH.
  destruct (decide (key x = k)) as [Hx|Hx], (decide (key y = k)) as [Hy|Hy].
  - rewrite Hx, Hy, key_lt_irrefl in Hyx. done.
  - by rewrite (bool_decide_eq_false_2 (key y = k)) by done.
  - by rewrite (bool_decide_eq_false_2 (key x = k)) by done.
  - by rewrite (bool_decide_eq_false_2 (key x = k)) by done.
Qed.

Lemma sorted_stable (k : nat * string) l :
  List.filter (λ y, bool_decide (key y = k)) (Peek.sorted key l)
  = List.filter (λ y, bool_decide (key y = k)) l.
Proof.
  induction l as [|x l IH]; [done|]. cbn [Peek.sorted foldr].
  rewrite insert_stable. cbn [List.filter]. fold (Peek.sorted key l). by rewrite IH.
Qed.

End sorting_facts.

Lemma StronglySorted_lookup {A} (R : A → A → Prop) (l : list A) i j a b :
  StronglySorted R l → i < j → l !! i = Some a → l !! j = Some b → R a b.
Proof.
  intros Hl. revert i j. induction Hl as [|x l Hl IH Hx]; intros i j Hij Hi Hj; [done|].
  destruct j as [|j]; [lia|]. cbn in Hj. destruct i as [|i].
  - injection Hi as ->. rewrite List.Forall_forall in Hx.
    apply Hx. eapply list_elem_of_In, list_elem_of_lookup_2, Hj.
  - cbn in Hi. apply (IH i j); [lia|done..].
Qed.

Lemma filter_filter_comm {A} (P Q : A → bool) (l : list A) :
  List.filter P (List.filter Q l) = List.filter Q (List.filter P l).
Proof.
  induction l as [|x l IH]; [done|]. cbn.
  destruct (P x) eqn:HP, (Q x) eqn:HQ; cbn; rewrite ?HP, ?HQ, IH; done.
Qed.

Lemma filter_Permutation {A} (P : A → bool) (l l' : list A) :
  l ≡ₚ l' → List.filter P l ≡ₚ List.filter P l'.
Proof.
  induction 1 as [|x l l' Hl IH|x y l|l l' l'' H1 IH1 H2 IH2]; cbn.
  - done.
  - destruct (P x); [by constructor|done].
  - destruct (P x), (P y); try done. apply Permutation_swap.
  - by etrans.
Qed.

(** X18.  What [peek] shows and in which order: the entries of the
    directory, without those whose name starts with a dot unless [-al] is
    given, each as often as [iterdir] yields it; directories (and links to
    directories) before everything else; within each of the two groups by
    lower-cased name; and entries of the same group whose lower-cased names
    coincide in the order of [iterdir]. *)
Theorem peek_shows_directories_first (lower : string → string)
    (fs : gmap (list string) node) (cwd : string) (root : ppath)
    (names : list string) (all : bool) :
  let shown := Peek.paths lower fs cwd root names all in
  let listed := if all then names
                else List.filter (λ name, negb (Peek.hidden name)) names in
  let is_dir name := Fs.is_dir fs cwd (Peek.child root name) in
  shown ≡ₚ listed
  ∧ (∀ i j a b, i < j → shown !! i = Some a → shown !! j = Some b →
       (is_dir b = true → is_dir a = true)
       ∧ (is_dir a = is_dir b → String.ltb (lower b) (lower a) = false))
  ∧ (∀ k, List.filter (λ name, bool_decide (Peek.key lower fs cwd root name = k)) shown
          = List.filter (λ name, bool_decide (Peek.key lower fs cwd root name = k))
              listed).
Proof.
  intros shown listed is_dir. subst shown listed is_dir. unfold Peek.paths.
  split; [|split].
  - destruct all; [apply sorted_Permutation|].
    apply filter_Permutation, sorted_Permutation.
  - intros i j a b Hij Hi Hj.
    assert (Peek.key_lt (Peek.key lower fs cwd root b) (Peek.key lower fs cwd root a)
            = false) as Hab.
    { refine (StronglySorted_lookup
                (λ a b, Peek.key_lt (Peek.key lower fs cwd root b)
                          (Peek.key lower fs cwd root a) = false)
                _ i j a b _ Hij Hi Hj).
      destruct all; [apply sorted_StronglySorted|].
      apply filter_StronglySorted, sorted_StronglySorted. }
    unfold Peek.key_lt, Peek.key in Hab. cbn [fst snd] in Hab.
    destruct (Fs.is_dir fs cwd (Peek.child root a)),
      (Fs.is_dir fs cwd (Peek.child root b)); cbn in Hab; split; done.
  - intros k. destruct all; [apply sorted_stable|].
    rewrite filter_filter_comm, sorted_stable. apply filter_filter_comm.
Qed.

(** [stat] through [os_stat] and through [Fs.stat]. *)
Lemma os_stat_raises fs cwd p :
  (∃ e, Peek.os_stat fs cwd p = Raise e) ↔ Fs.stat fs cwd p = None.
Proof.
  unfold Peek.os_stat, Fs.stat.
  destruct (Fs.realpath true Fs.MAXSYMLINKS fs [] (Fs.from_root cwd p)) as [t|e].
  - destruct (Fs.node_at fs t) as [n|].
    + split; [by intros [? ?]|done].
    + split; eauto.
  - split; eauto.
Qed.

Lemma os_stat_returns fs cwd p t n :
  Peek.os_stat fs cwd p = Return (t, n) →
  Fs.realpath true Fs.MAXSYMLINKS fs [] (Fs.from_root cwd p) = Return t
  ∧ Fs.stat fs cwd p = Some n.
Proof.
  unfold Peek.os_stat, Fs.stat.
  destruct (Fs.realpath true Fs.MAXSYMLINKS fs [] (Fs.from_root cwd p)) as [t'|e];
    [|done].
  destruct (Fs.node_at fs t') as [n'|] eqn:Hn; [|done]. by intros [= -> ->].
Qed.

Lemma iterdir_returns fs cwd root :
  (∃ names, Peek.iterdir fs cwd root = Return names) ↔ Fs.is_dir fs cwd root = true.
Proof.
  unfold Peek.iterdir, Fs.is_dir.
  destruct (Peek.os_stat fs cwd root) as [[t n]|e] eqn:Hs.
  - apply os_stat_returns in Hs as [_ ->].
    destruct n; split; eauto; try done; by intros [? ?].
  - assert (Fs.stat fs cwd root = None) as -> by (apply os_stat_raises; eauto).
    split; [by intros [? ?]|done].
Qed.

Lemma rows_complaints_length (lines : list (string + string)) :
  length (Peek.rows lines) + length (Peek.complaints lines) = length lines
  ∧ length (Peek.complaints lines)
    = length (List.filter (λ line, match line with inr _ => true | inl _ => false end)
                lines).
Proof.
  unfold Peek.rows, Peek.complaints.
  induction lines as [|[row|err] lines [IH1 IH2]]; cbn; [done|split; lia..].
Qed.

Lemma filter_map_length {A B} (f : A → B) (P : B → bool) (l : list A) :
  length (List.filter P (List.map f l)) = length (List.filter (λ x, P (f x)) l).
Proof. induction l as [|x l IH]; [done|]. cbn. destruct (P (f x)); cbn; by rewrite IH. Qed.



Lemma string_length_app (s1 s2 : string) :
  String.length (s1 +:+ s2) = String.length s1 + String.length s2.
Proof. induction s1 as [|c s1 IH]; [done|]. simpl. f_equal. exact IH. Qed.

Lemma spaces_length n : String.length (Peek.spaces n) = n.
Proof. induction n as [|n IH]; [done|]. cbn. by rewrite IH. Qed.

(** A bounded number has a bounded number of digits. *)
Lemma pretty_length_below (bound digits : nat) :
  forallb (λ n, String.length (pretty n) <=? digits) (seq 0 bound) = true →
  ∀ n, n < bound → String.length (pretty n) ≤ digits.
Proof.
  intros Hall n Hn. rewrite forallb_forall in Hall.
  apply Nat.leb_le, Hall, in_seq. lia.
Qed.

(** X20.  The time of an entry is shown on a twelve-hour clock that loses
    nothing: the hour shown lies between 1 and 12 and, with [AM] or [PM],
    gives the hour of the day back (midnight is [12 AM], noon [12 PM]);
    the minutes always take two digits; and the whole, for a year of at most four digits,
    never overruns the 22 characters of its column. *)
Theorem fmt_time_twelve_hour_clock (dt : Peek.datetime) :
  Peek.month dt ≤ 12 → Peek.day dt ≤ 31 →
  String.length (pretty (Peek.year dt)) ≤ 4 →
  Peek.hour dt < 24 → Peek.minute dt < 60 →
  1 ≤ Peek.hour12 (Peek.hour dt) ≤ 12
  ∧ Peek.hour dt
    = Peek.hour12 (Peek.hour dt) mod 12
      + (if bool_decide (Peek.ampm (Peek.hour dt) = "AM") then 0 else 12)
  ∧ String.length (Peek.two_digits (Peek.minute dt)) = 2
  ∧ String.length (Peek.fmt_time dt) ≤ 22.
Proof.
  destruct dt as [Y m d h mi]. cbn [Peek.year Peek.month Peek.day Peek.hour Peek.minute].
  intros Hm Hd HY Hh Hmi.
  assert (Hclock : 1 ≤ Peek.hour12 h ≤ 12
                   ∧ h = Peek.hour12 h mod 12
                         + (if bool_decide (Peek.ampm h = "AM") then 0 else 12)).
  { do 24 (destruct h as [|h]; [vm_compute; lia|]). lia. }
  assert (Hmin : String.length (Peek.two_digits mi) = 2).
  { do 60 (destruct mi as [|mi]; [reflexivity|]). lia. }
  destruct Hclock as [Hrange Hback].
  split; [done|]. split; [done|]. split; [done|].
  unfold Peek.fmt_time. cbn [Peek.year Peek.month Peek.day Peek.hour Peek.minute].
  rewrite !string_length_app, Hmin.
  assert (String.length (pretty m) ≤ 2)
    by (apply (pretty_length_below 13); [by vm_compute|lia]).
  assert (String.length (pretty d) ≤ 2)
    by (apply (pretty_length_below 32); [by vm_compute|lia]).
  assert (String.length (pretty (Peek.hour12 h)) ≤ 2)
    by (apply (pretty_length_below 13); [by vm_compute|lia]).
  assert (String.length (Peek.ampm h) = 2) by (unfold Peek.ampm; by destruct (h <? 12)).
  cbn [String.length]. lia.
Qed.

(** Five past ten in the evening. *)
Lemma fmt_time_twelve_hour_clock_witness :
  22 = Peek.hour12 22 mod 12 + (if bool_decide (Peek.ampm 22 = "AM") then 0 else 12)
  ∧ String.length (Peek.fmt_time (demo_last_write [])) ≤ 22.
Proof.
  destruct (fmt_time_twelve_hour_clock (demo_last_write []))
    as (_ & Hback & _ & Hfits);
    [cbn; lia | cbn; lia | vm_compute; lia | cbn; lia | cbn; lia |].
  exact (conj Hback Hfits).
Defined.

Section peek_entry.
Context {host : Host}.
Variable lower : string → string.
Variable last_write : list string → Peek.datetime.
Hypothesis peek_is_report : ∀ fs cwd root all,
  peek_report fs cwd root all = Peek.report lower last_write fs cwd root all.

Lemma os_stat_kind fs cwd p e :
  Peek.os_stat fs cwd p = Raise e →
  kind e = FileNotFoundError ∨ kind e = NotADirectoryError ∨ kind e = OSError.
Proof.
  unfold Peek.os_stat, Peek.on_file.
  destruct (Fs.realpath true Fs.MAXSYMLINKS fs [] (Fs.from_root cwd p)) as [t|e'].
  - destruct (Fs.node_at fs t); [done|]. intros [= <-]. by left.
  - intros [= <-]. destruct (kind e'); cbn; auto.
Qed.


End peek_entry.

